(** * Energy Debates front end: a shallow embedding of the UI logic

    The components modelled here are the React components of the
    podcast generator's front end: the script viewer ([formatScript]),
    the episode detail page (insight cards), the audio panel (status
    polling and retry), the blog uploader (validation before any call)
    and the generation wizard (settings state).

    JavaScript strings are sequences of UTF-16 code units; they are
    modelled as [list N], one number per code unit, so that character
    classes such as [\s] and [.] keep their exact meaning. *)

From Stdlib Require Import NArith ZArith Ascii String Lia.
From stdpp Require Import base tactics option list.

Local Open Scope N_scope.

(** ** JavaScript strings and the string methods the components use *)

Module JS.

Definition str := list N.

(** A literal of the source, written as a Rocq string (ASCII only). *)
Definition lit (s : string) : str :=
  List.map N_of_ascii (list_ascii_of_string s).

Definition ch (a : ascii) : N := N_of_ascii a.

(** [\d] *)
Definition is_digit (c : N) : bool := (48 <=? c) && (c <=? 57).

(** LineTerminator: LF, CR, U+2028, U+2029. *)
Definition is_line_terminator (c : N) : bool :=
  (c =? 10) || (c =? 13) || (c =? 8232) || (c =? 8233).

(** [\s], which is also the set removed by [String.prototype.trim]:
    WhiteSpace (TAB, VT, FF, SP, NBSP, ZWNBSP and the Zs category)
    together with LineTerminator. *)
Definition is_space (c : N) : bool :=
  (c =? 9) || (c =? 11) || (c =? 12) || (c =? 32) || (c =? 160)
  || (c =? 5760) || ((8192 <=? c) && (c <=? 8202))
  || (c =? 8239) || (c =? 8287) || (c =? 12288) || (c =? 65279)
  || is_line_terminator c.

(** [.] without the [s] flag. *)
Definition is_dot (c : N) : bool := negb (is_line_terminator c).

Fixpoint str_eqb (a b : str) : bool :=
  match a, b with
  | [], [] => true
  | x :: a', y :: b' => (x =? y) && str_eqb a' b'
  | _, _ => false
  end.

(** [s.startsWith(p)] *)
Fixpoint startsWith (p s : str) : bool :=
  match p, s with
  | [], _ => true
  | x :: p', y :: s' => (x =? y) && startsWith p' s'
  | _ :: _, [] => false
  end.

(** [s.endsWith(p)] *)
Definition endsWith (p s : str) : bool :=
  startsWith (rev p) (rev s).

Fixpoint trimStart (s : str) : str :=
  match s with
  | c :: s' => if is_space c then trimStart s' else s
  | [] => []
  end.

(** [s.trim()] *)
Definition trim (s : str) : str :=
  rev (trimStart (rev (trimStart s))).

(** [!s]: the empty string is the only falsy string. *)
Definition falsy (s : str) : bool :=
  match s with [] => true | _ => false end.

(** [s.split("\n")]: never empty, [""] splits to [[""]]. *)
Fixpoint split_nl (s : str) : list str :=
  match s with
  | [] => [[]]
  | c :: s' =>
      if c =? 10 then [] :: split_nl s'
      else match split_nl s' with
           | l :: ls => (c :: l) :: ls
           | [] => [[c]]
           end
  end.

(** *** The regular-expression fragment of the source

    Every regular expression in the components is a start-anchored
    sequence of single-character atoms, each with a quantifier, with or
    without a closing [$].  [exec] is the backtracking matcher of
    JavaScript for that fragment: quantifiers are greedy and give
    characters back one at a time.  The result is the text left after
    the match. *)

Inductive quant := One | Opt | Star | Plus.

Definition atom : Type := (N -> bool) * quant.

Record regex := Regex { atoms : list atom; anchored_end : bool }.

Definition or_else {A} (a : option A) (b : option A) : option A :=
  match a with Some _ => a | None => b end.

Fixpoint star_exec (cls : N -> bool) (k : str -> option str) (s : str)
  : option str :=
  match s with
  | c :: s' => if cls c then or_else (star_exec cls k s') (k s) else k s
  | [] => k []
  end.

(** The atoms [p] in sequence, then the rest of the match [k]. *)
Fixpoint exec_atoms (p : list atom) (k : str -> option str)
  : str -> option str :=
  match p with
  | [] => k
  | (cls, q) :: p' =>
      let k' := exec_atoms p' k in
      match q with
      | One => fun s =>
          match s with
          | c :: s' => if cls c then k' s' else None
          | [] => None
          end
      | Opt => fun s =>
          match s with
          | c :: s' => if cls c then or_else (k' s') (k' s) else k' s
          | [] => k' []
          end
      | Star => star_exec cls k'
      | Plus => fun s =>
          match s with
          | c :: s' => if cls c then star_exec cls k' s' else None
          | [] => None
          end
      end
  end.

(** The end of the pattern: [$] accepts only the end of the text. *)
Definition finish (at_end : bool) (s : str) : option str :=
  if at_end then (if falsy s then Some [] else None) else Some s.

Definition exec (r : regex) (s : str) : option str :=
  exec_atoms (atoms r) (finish (anchored_end r)) s.

(** [s.match(r)] used as a condition. *)
Definition test (r : regex) (s : str) : bool :=
  match exec r s with Some _ => true | None => false end.

(** [s.replace(r, "")] for a start-anchored [r] without the [g] flag. *)
Definition replace_empty (r : regex) (s : str) : str :=
  match exec r s with Some rest => rest | None => s end.

(** [s.match(r)?.[0].length]: [None] when there is no match. *)
Definition match_length (r : regex) (s : str) : option nat :=
  match exec r s with
  | Some rest => Some (length s - length rest)%nat
  | None => None
  end.

Definition is_char (a : ascii) (c : N) : bool := c =? ch a.

(** A literal run of characters inside a regular expression. *)
Definition lits (s : string) : list atom :=
  List.map (fun a => (is_char a, One)) (list_ascii_of_string s).

End JS.

(** ** The script viewer: [formatScript] *)

Module ScriptViewer.
Import JS.

Local Open Scope char_scope.

Inductive Speaker := Doug | Claire.

Definition is_digit_or_colon (c : N) : bool := is_digit c || is_char ":" c.

Definition is_dash_or_star (c : N) : bool := is_char "-" c || is_char "*" c.

(** [/^\*?\*?DOUG:\*?\*?\s*/] *)
Definition re_doug : regex :=
  Regex ([(is_char "*", Opt); (is_char "*", Opt)] ++ lits "DOUG:"
         ++ [(is_char "*", Opt); (is_char "*", Opt); (is_space, Star)]) false.

(** [/^\*?\*?CLAIRE:\*?\*?\s*/] *)
Definition re_claire : regex :=
  Regex ([(is_char "*", Opt); (is_char "*", Opt)] ++ lits "CLAIRE:"
         ++ [(is_char "*", Opt); (is_char "*", Opt); (is_space, Star)]) false.

(** [/^\[[\d:]+\]/] *)
Definition re_timestamp : regex :=
  Regex (lits "[" ++ [(is_digit_or_colon, Plus)] ++ lits "]") false.

(** [/^\[.*\]$/] *)
Definition re_stage : regex :=
  Regex (lits "[" ++ [(is_dot, Star)] ++ lits "]") true.

(** [/^#+/] *)
Definition re_hashes : regex := Regex [(is_char "#", Plus)] false.

(** [/^#+\s*/] *)
Definition re_heading : regex :=
  Regex [(is_char "#", Plus); (is_space, Star)] false.

(** [/^[-*]{3,}$/] *)
Definition re_rule : regex :=
  Regex [(is_dash_or_star, One); (is_dash_or_star, One);
         (is_dash_or_star, One); (is_dash_or_star, Star)] true.

(** What one line is rendered as: the element of each branch of the
    [map] callback, with the text it displays. *)
Inductive Element :=
| SpeakerLine (who : Speaker) (text : str)
| TimestampMarker (text : str)
| StageDirection (text : str)
| Heading (className : string) (text : str)
| HorizontalRule
| EmptyLine
| RegularText (text : str).

(** [line.match(/^#+/)?.[0].length || 1] *)
Definition heading_level (line : str) : nat :=
  match match_length re_hashes line with
  | Some 0%nat | None => 1%nat
  | Some n => n
  end.

Definition heading_class (level : nat) : string :=
  match level with
  | 1%nat => "text-xl font-bold mt-6 mb-3"
  | 2%nat => "text-lg font-semibold mt-5 mb-2"
  | 3%nat => "text-base font-medium mt-4 mb-2"
  | _ => "font-medium mt-3 mb-1"
  end%string.

Definition formatLine (line : str) : Element :=
  if startsWith (lit "DOUG:") line || startsWith (lit "**DOUG:**") line then
    SpeakerLine Doug (replace_empty re_doug line)
  else if startsWith (lit "CLAIRE:") line
          || startsWith (lit "**CLAIRE:**") line then
    SpeakerLine Claire (replace_empty re_claire line)
  else if test re_timestamp line then TimestampMarker line
  else if test re_stage line then StageDirection line
  else if startsWith (lit "#") line then
    Heading (heading_class (heading_level line))
            (replace_empty re_heading line)
  else if test re_rule line then HorizontalRule
  else if falsy (trim line) then EmptyLine
  else RegularText line.

(** The rendered list; each element carries its [key], the line index. *)
Definition formatScript (script : str) : list (nat * Element) :=
  imap (fun index line => (index, formatLine line)) (split_nl script).

(** The line kinds of the script grammar. *)
Inductive LineKind :=
| KSpeaker | KTimestamp | KStageDirection | KHeading | KOther.

Definition kind (e : Element) : LineKind :=
  match e with
  | SpeakerLine _ _ => KSpeaker
  | TimestampMarker _ => KTimestamp
  | StageDirection _ => KStageDirection
  | Heading _ _ => KHeading
  | HorizontalRule | EmptyLine | RegularText _ => KOther
  end.

End ScriptViewer.

(** ** The episode detail page: the insight cards *)

Module EpisodeDetailPage.
Import JS.

(** Modelled from the spec: the [Insights] type is declared in the
    repository's [lib/api] module, which is not among the sources;
    the spec gives it four categories, each an ordered sequence of
    short strings. *)
Record Insights := {
  utilities : list str;
  consumers : list str;
  startups : list str;
  regulatory : list str
}.

Inductive Category := Utilities | Consumers | Startups | Regulatory.

(** The sequence the page reads for each card. *)
Definition category_items (c : Category) (i : Insights) : list str :=
  match c with
  | Utilities => utilities i
  | Consumers => consumers i
  | Startups => startups i
  | Regulatory => regulatory i
  end.

(** Modelled from the spec: the [Episode] type is declared in the
    repository's [lib/api] module, which is not among the sources.  The
    page guards on [episode.insights], so the field may be absent. *)
Record Episode := {
  id : str; blog_id : str; title : str; script : str;
  insights : option Insights; summary : str;
  duration_estimate : Z; humor_level : Z; created_at : str
}.

(** One card: its heading and the list items with their keys. *)
Record Card := { heading : Category; items : list (nat * str) }.

(** [xs.length > 0 && <div className="card p-4">...</div>]: the
    conjunction renders the card, or [false], which React skips.
    The list shows [xs.slice(0, 2)]. *)
Definition card (c : Category) (i : Insights) : option Card :=
  let xs := category_items c i in
  if (0 <? length xs)%nat
  then Some {| heading := c; items := imap (fun k item => (k, item)) (take 2 xs) |}
  else None.

(** The children of the grid, in source order. *)
Definition insights_grid (i : Insights) : list (option Card) :=
  [card Utilities i; card Consumers i; card Startups i; card Regulatory i].

(** [episode.insights && <div className="grid ...">...</div>] *)
Definition insights_section (insights : option Insights)
  : option (list (option Card)) :=
  match insights with
  | Some i => Some (insights_grid i)
  | None => None
  end.

(** The cards that reach the page. *)
Definition rendered_cards (insights : option Insights) : list Card :=
  match insights_section insights with
  | Some grid => omap (fun c => c) grid
  | None => []
  end.

(** The cards of the page of [episode]. *)
Definition insight_cards (episode : Episode) : list Card :=
  rendered_cards (insights episode).

End EpisodeDetailPage.

(** ** The audio panel: status polling, retry, player *)

Module AudioPanel.
Import JS.

(** Modelled from the spec: the status values of an [AudioJob], a
    string union declared in [lib/api]; the panel compares against
    these five literals. *)
Inductive Status := pending | generating | processing | complete | failed.

Definition status_eqb (a b : Status) : bool :=
  match a, b with
  | pending, pending | generating, generating | processing, processing
  | complete, complete | failed, failed => true
  | _, _ => false
  end.

(** Modelled from the spec: the [AudioJob] type is declared in the
    repository's [lib/api] module, which is not among the sources.  The
    spec lists its fields; the panel tests [segment_count] and
    [duration_seconds] for truthiness, so they may be absent. *)
Record AudioJob := {
  episode_id : str;
  status : Status;
  progress : Z;
  message : str;
  segment_count : option Z;
  duration_seconds : option Z;
  output_path : option str
}.

(** What the panel asks of the outside world. *)
Inductive Effect :=
| GetEpisodeAudioStatus (episodeId : str)
| GenerateAudio (episodeId : str)
| WindowOpen (episodeId : str).

(** The four [useState] cells, the timer owned by the polling effect
    (with its period in milliseconds), and the requests whose promise
    has not settled yet, by the code that awaits them. *)
Record State := {
  mounted : bool;
  audioJob : option AudioJob;
  isLoading : bool;
  isGenerating : bool;
  error : option str;
  interval : option Z;
  loads_in_flight : nat;
  polls_in_flight : nat;
  generates_in_flight : nat
}.

Definition initial : State :=
  {| mounted := false; audioJob := None; isLoading := true;
     isGenerating := false; error := None; interval := None;
     loads_in_flight := 0; polls_in_flight := 0; generates_in_flight := 0 |}.

Definition with_audioJob (j : option AudioJob) (s : State) : State :=
  {| mounted := mounted s; audioJob := j; isLoading := isLoading s;
     isGenerating := isGenerating s; error := error s;
     interval := interval s; loads_in_flight := loads_in_flight s;
     polls_in_flight := polls_in_flight s;
     generates_in_flight := generates_in_flight s |}.

Definition setIsLoading (b : bool) (s : State) : State :=
  {| mounted := mounted s; audioJob := audioJob s; isLoading := b;
     isGenerating := isGenerating s; error := error s;
     interval := interval s; loads_in_flight := loads_in_flight s;
     polls_in_flight := polls_in_flight s;
     generates_in_flight := generates_in_flight s |}.

Definition setIsGenerating (b : bool) (s : State) : State :=
  {| mounted := mounted s; audioJob := audioJob s; isLoading := isLoading s;
     isGenerating := b; error := error s;
     interval := interval s; loads_in_flight := loads_in_flight s;
     polls_in_flight := polls_in_flight s;
     generates_in_flight := generates_in_flight s |}.

Definition setError (e : option str) (s : State) : State :=
  {| mounted := mounted s; audioJob := audioJob s; isLoading := isLoading s;
     isGenerating := isGenerating s; error := e;
     interval := interval s; loads_in_flight := loads_in_flight s;
     polls_in_flight := polls_in_flight s;
     generates_in_flight := generates_in_flight s |}.

Definition with_interval (t : option Z) (s : State) : State :=
  {| mounted := mounted s; audioJob := audioJob s; isLoading := isLoading s;
     isGenerating := isGenerating s; error := error s;
     interval := t; loads_in_flight := loads_in_flight s;
     polls_in_flight := polls_in_flight s;
     generates_in_flight := generates_in_flight s |}.

Definition with_in_flight (l p g : nat) (s : State) : State :=
  {| mounted := mounted s; audioJob := audioJob s; isLoading := isLoading s;
     isGenerating := isGenerating s; error := error s;
     interval := interval s; loads_in_flight := l;
     polls_in_flight := p; generates_in_flight := g |}.

Definition with_mounted (s : State) : State :=
  {| mounted := true; audioJob := audioJob s; isLoading := isLoading s;
     isGenerating := isGenerating s; error := error s;
     interval := interval s; loads_in_flight := loads_in_flight s;
     polls_in_flight := polls_in_flight s;
     generates_in_flight := generates_in_flight s |}.

(** [status === "complete" || status === "failed"] *)
Definition is_terminal (st : Status) : bool :=
  status_eqb st complete || status_eqb st failed.

(** The polling effect, run whenever [audioJob] changes: the cleanup of
    the previous run clears its timer, then the body returns early on no
    job or on a terminal job and otherwise calls [setInterval(.., 2000)]. *)
Definition poll_effect (s : State) : State :=
  let s := with_interval None s in
  match audioJob s with
  | None => s
  | Some j =>
      if is_terminal (status j) then s else with_interval (Some 2000%Z) s
  end.

(** [setAudioJob(j)] followed by the re-render that runs the effect. *)
Definition setAudioJob (j : option AudioJob) (s : State) : State :=
  poll_effect (with_audioJob j s).

(** How a call of [api.getEpisodeAudioStatus] settles. *)
Inductive StatusResult :=
| StatusOk (job : option AudioJob)
| StatusThrows.

(** How a call of [api.generateAudio] settles; a thrown value carries a
    message when it is an [Error]. *)
Inductive GenerateResult :=
| GenerateOk (job : AudioJob)
| GenerateThrows (msg : option str).

(** The tail of [checkAudioStatus], after the [await]: the value it
    returns is the job, or [null] after a caught exception. *)
Definition checkAudioStatus_settled (r : StatusResult) (s : State)
  : State * option AudioJob :=
  match r with
  | StatusOk j => (setAudioJob j s, j)
  | StatusThrows => (s, None)
  end.

(** ** Rendering *)

Inductive Handler := HandleGenerate | HandleDownload.

Record Button := { onClick : Handler; disabled : bool }.

Inductive Badge := Ready | Failed | Processing.

(** [n && <p>...</p>] for a number that may be absent: the element, the
    number zero itself, or nothing. *)
Inductive NumSlot := SlotElement (n : Z) | SlotZero | SlotEmpty.

Definition guard_num (o : option Z) : NumSlot :=
  match o with
  | Some 0%Z => SlotZero
  | Some n => SlotElement n
  | None => SlotEmpty
  end.

Record ProgressView := {
  progress_message : str; percent : Z; segments : NumSlot
}.

Record CompletedView := {
  duration : NumSlot; player_source : str; download : Button
}.

Record FailedView := { failure_message : str; retry : Button }.

Record Panel := {
  badges : list Badge;
  error_box : option str;
  progress_section : option ProgressView;
  completed_section : option CompletedView;
  failed_section : option FailedView;
  no_audio_section : option Button
}.

Inductive View := LoadingView | PanelView (p : Panel).

Definition has_status (st : Status) (j : option AudioJob) : bool :=
  match j with
  | Some job => status_eqb (status job) st
  | None => false
  end.

(** [audioJob && ["pending", "generating", "processing"].includes(..)] *)
Definition isProcessing (j : option AudioJob) : bool :=
  match j with
  | Some job =>
      status_eqb (status job) pending || status_eqb (status job) generating
      || status_eqb (status job) processing
  | None => false
  end.

Definition render (episodeId : str) (s : State) : View :=
  if isLoading s then LoadingView
  else
    let job := audioJob s in
    PanelView {|
      badges :=
        (if has_status complete job then [Ready] else [])
        ++ (if has_status failed job then [Failed] else [])
        ++ (if isProcessing job then [Processing] else []);
      error_box :=
        match error s with
        | Some e => if falsy e then None else Some e
        | None => None
        end;
      progress_section :=
        match job with
        | Some j =>
            if isProcessing job then
              Some {| progress_message := message j; percent := progress j;
                      segments := guard_num (segment_count j) |}
            else None
        | None => None
        end;
      completed_section :=
        match job with
        | Some j =>
            if status_eqb (status j) complete then
              Some {| duration := guard_num (duration_seconds j);
                      player_source := episodeId;
                      download := {| onClick := HandleDownload;
                                     disabled := false |} |}
            else None
        | None => None
        end;
      failed_section :=
        match job with
        | Some j =>
            if status_eqb (status j) failed then
              Some {| failure_message := message j;
                      retry := {| onClick := HandleGenerate;
                                  disabled := isGenerating s |} |}
            else None
        | None => None
        end;
      no_audio_section :=
        match job with
        | None => Some {| onClick := HandleGenerate;
                          disabled := isGenerating s |}
        | Some _ => None
        end
    |}.

(** The buttons on screen. *)
Definition buttons (v : View) : list Button :=
  match v with
  | LoadingView => []
  | PanelView p =>
      match completed_section p with Some c => [download c] | None => [] end
      ++ match failed_section p with Some f => [retry f] | None => [] end
      ++ match no_audio_section p with Some b => [b] | None => [] end
  end.

Definition handler_eqb (a b : Handler) : bool :=
  match a, b with
  | HandleGenerate, HandleGenerate | HandleDownload, HandleDownload => true
  | _, _ => false
  end.

(** The user can trigger [h]: an enabled button bound to it is shown. *)
Definition clickable (h : Handler) (v : View) : bool :=
  existsb (fun b => handler_eqb (onClick b) h && negb (disabled b))
          (buttons v).

(** ** Handlers and the event loop *)

(** [handleGenerate] up to its [await]. *)
Definition handleGenerate (episodeId : str) (s : State)
  : State * list Effect :=
  let s := setIsGenerating true s in
  let s := setError None s in
  (with_in_flight (loads_in_flight s) (polls_in_flight s)
                  (S (generates_in_flight s)) s,
   [GenerateAudio episodeId]).

(** [handleGenerate] after the [await]. *)
Definition handleGenerate_settled (r : GenerateResult) (s : State) : State :=
  match r with
  | GenerateOk job => setAudioJob (Some job) s
  | GenerateThrows msg =>
      let s := setError
                 (Some (match msg with
                        | Some m => m
                        | None => lit "Failed to start audio generation"
                        end)) s in
      setIsGenerating false s
  end.

Definition handleDownload (episodeId : str) (s : State)
  : State * list Effect :=
  (s, [WindowOpen episodeId]).

Inductive Event :=
| Mount
| Tick
| LoadSettled (r : StatusResult)
| PollSettled (r : StatusResult)
| ClickGenerate
| GenerateSettled (r : GenerateResult)
| ClickDownload.

(** One turn of the event loop; [None] when the event cannot occur in
    that state (no timer to fire, no promise to settle, no button). *)
Definition step (episodeId : str) (s : State) (e : Event)
  : option (State * list Effect) :=
  match e with
  | Mount =>
      if mounted s then None
      else
        (* first effect: loadStatus up to its await *)
        let s := setIsLoading true (with_mounted s) in
        let s := with_in_flight (S (loads_in_flight s)) (polls_in_flight s)
                                (generates_in_flight s) s in
        (* second effect: the polling effect *)
        Some (poll_effect s, [GetEpisodeAudioStatus episodeId])
  | Tick =>
      match interval s with
      | Some _ =>
          Some (with_in_flight (loads_in_flight s) (S (polls_in_flight s))
                               (generates_in_flight s) s,
                [GetEpisodeAudioStatus episodeId])
      | None => None
      end
  | LoadSettled r =>
      match loads_in_flight s with
      | S n =>
          let s := with_in_flight n (polls_in_flight s)
                                  (generates_in_flight s) s in
          let '(s, _) := checkAudioStatus_settled r s in
          Some (setIsLoading false s, [])
      | O => None
      end
  | PollSettled r =>
      match polls_in_flight s with
      | S n =>
          let s := with_in_flight (loads_in_flight s) n
                                  (generates_in_flight s) s in
          let '(s, st) := checkAudioStatus_settled r s in
          Some (if has_status complete st || has_status failed st
                then setIsGenerating false s else s, [])
      | O => None
      end
  | ClickGenerate =>
      if clickable HandleGenerate (render episodeId s)
      then Some (handleGenerate episodeId s) else None
  | GenerateSettled r =>
      match generates_in_flight s with
      | S n =>
          let s := with_in_flight (loads_in_flight s) (polls_in_flight s)
                                  n s in
          Some (handleGenerate_settled r s, [])
      | O => None
      end
  | ClickDownload =>
      if clickable HandleDownload (render episodeId s)
      then Some (handleDownload episodeId s) else None
  end.

(** A run of the event loop, with everything it asked of the outside. *)
Fixpoint run (episodeId : str) (s : State) (es : list Event)
  : option (State * list Effect) :=
  match es with
  | [] => Some (s, [])
  | e :: es' =>
      match step episodeId s e with
      | Some (s', out) =>
          match run episodeId s' es' with
          | Some (s'', out') => Some (s'', out ++ out')
          | None => None
          end
      | None => None
      end
  end.

(** The states the panel can be in. *)
Inductive reachable (episodeId : str) : State -> Prop :=
| reachable_initial : reachable episodeId initial
| reachable_step s e s' out :
    reachable episodeId s ->
    step episodeId s e = Some (s', out) ->
    reachable episodeId s'.

(** An event issued by the panel itself, without the user. *)
Definition automatic (e : Event) : bool :=
  match e with
  | ClickGenerate | ClickDownload => false
  | _ => true
  end.

Definition is_status_request (f : Effect) : bool :=
  match f with GetEpisodeAudioStatus _ => true | _ => false end.

End AudioPanel.

(** ** The blog uploader: validation before any call *)

Module BlogUploader.
Import JS.

(** The part of a DOM [File] the component reads, and its contents. *)
Record File := { name : str; contents : str }.

(** Modelled from the spec: the [Blog] type is declared in the
    repository's [lib/api] module, which is not among the sources. *)
Record Blog := {
  id : str; blog_title : str; blog_content : str; tags : list str;
  summary : str; created_at : str
}.

Inductive Effect :=
| UploadBlog (file : File)
| CreateBlog (title content : str)
| OnUpload (blog : Blog).

Record State := {
  isDragging : bool;
  isLoading : bool;
  error : option str;
  pasteMode : bool;
  title : str;
  content : str
}.

Definition initial : State :=
  {| isDragging := false; isLoading := false; error := None;
     pasteMode := false; title := []; content := [] |}.

Definition setIsDragging (b : bool) (s : State) : State :=
  {| isDragging := b; isLoading := isLoading s; error := error s;
     pasteMode := pasteMode s; title := title s; content := content s |}.

Definition setIsLoading (b : bool) (s : State) : State :=
  {| isDragging := isDragging s; isLoading := b; error := error s;
     pasteMode := pasteMode s; title := title s; content := content s |}.

Definition setError (e : option str) (s : State) : State :=
  {| isDragging := isDragging s; isLoading := isLoading s; error := e;
     pasteMode := pasteMode s; title := title s; content := content s |}.

Definition setPasteMode (b : bool) (s : State) : State :=
  {| isDragging := isDragging s; isLoading := isLoading s; error := error s;
     pasteMode := b; title := title s; content := content s |}.

Definition setTitle (t : str) (s : State) : State :=
  {| isDragging := isDragging s; isLoading := isLoading s; error := error s;
     pasteMode := pasteMode s; title := t; content := content s |}.

Definition setContent (c : str) (s : State) : State :=
  {| isDragging := isDragging s; isLoading := isLoading s; error := error s;
     pasteMode := pasteMode s; title := title s; content := c |}.

Definition extension_message : str := lit "Please upload a markdown file (.md)".

Definition paste_message : str := lit "Please provide both title and content".

(** [!file.name.endsWith(".md") && !file.name.endsWith(".markdown")] *)
Definition wrong_extension (file : File) : bool :=
  negb (endsWith (lit ".md") (name file))
  && negb (endsWith (lit ".markdown") (name file)).

(** [uploadFile] up to its [await]. *)
Definition uploadFile (file : File) (s : State) : State * list Effect :=
  let s := setIsLoading true s in
  let s := setError None s in
  (s, [UploadBlog file]).

(** How an API call settles: the blog, or a thrown value that carries a
    message when it is an [Error]. *)
Inductive Result := Ok (blog : Blog) | Throws (msg : option str).

(** [uploadFile] after the [await]. *)
Definition uploadFile_settled (r : Result) (s : State)
  : State * list Effect :=
  match r with
  | Ok blog => (setIsLoading false s, [OnUpload blog])
  | Throws msg =>
      let s := setError (Some (match msg with
                               | Some m => m
                               | None => lit "Upload failed"
                               end)) s in
      (setIsLoading false s, [])
  end.

(** [handleDrop]; [files] is [e.dataTransfer.files]. *)
Definition handleDrop (files : list File) (s : State)
  : State * list Effect :=
  let s := setIsDragging false s in
  let s := setError None s in
  match files with
  | [] => (s, [])
  | file :: _ =>
      if wrong_extension file
      then (setError (Some extension_message) s, [])
      else uploadFile file s
  end.

(** [handleFileSelect]; [files] is [e.target.files], empty when null. *)
Definition handleFileSelect (files : list File) (s : State)
  : State * list Effect :=
  match files with
  | [] => (s, [])
  | file :: _ =>
      if wrong_extension file
      then (setError (Some extension_message) s, [])
      else uploadFile file s
  end.

(** [handlePasteSubmit] up to its [await]. *)
Definition handlePasteSubmit (s : State) : State * list Effect :=
  if falsy (trim (title s)) || falsy (trim (content s))
  then (setError (Some paste_message) s, [])
  else
    let s' := setIsLoading true s in
    let s' := setError None s' in
    (s', [CreateBlog (title s) (content s)]).

(** [handlePasteSubmit] after the [await]. *)
Definition handlePasteSubmit_settled (r : Result) (s : State)
  : State * list Effect :=
  match r with
  | Ok blog =>
      let s := setTitle [] s in
      let s := setContent [] s in
      let s := setPasteMode false s in
      (setIsLoading false s, [OnUpload blog])
  | Throws msg =>
      let s := setError (Some (match msg with
                               | Some m => m
                               | None => lit "Create failed"
                               end)) s in
      (setIsLoading false s, [])
  end.

Definition is_api_call (f : Effect) : bool :=
  match f with
  | UploadBlog _ | CreateBlog _ _ => true
  | OnUpload _ => false
  end.

End BlogUploader.

(** ** The generation wizard: the settings state *)

Module GenerationWizard.
Import JS.

(** A JavaScript number as the wizard meets it: an integer or NaN. *)
Inductive number := Num (z : Z) | NaN.

Definition decimal_digit (c : N) : option Z :=
  if is_digit c then Some (Z.of_N c - 48)%Z else None.

Definition hex_digit (c : N) : option Z :=
  if is_digit c then Some (Z.of_N c - 48)%Z
  else if (97 <=? c) && (c <=? 102) then Some (Z.of_N c - 87)%Z
  else if (65 <=? c) && (c <=? 70) then Some (Z.of_N c - 55)%Z
  else None.

(** The value of the longest run of digits at the start of [s]; [acc]
    is [None] until a digit has been read. *)
Fixpoint parse_digits (digit : N -> option Z) (radix : Z) (acc : option Z)
  (s : str) : option Z :=
  match s with
  | c :: s' =>
      match digit c with
      | Some d =>
          parse_digits digit radix
            (Some (radix * from_option (fun a => a) 0%Z acc + d)%Z) s'
      | None => acc
      end
  | [] => acc
  end.

(** [parseInt(s)] with no radix: leading white space, a sign, an
    optional [0x] prefix, then digits; NaN when there is no digit. *)
Definition parseInt (s : str) : number :=
  let s := trimStart s in
  let '(sign, s) :=
    match s with
    | c :: s' =>
        if c =? 45 then ((-1)%Z, s')
        else if c =? 43 then (1%Z, s')
        else (1%Z, s)
    | [] => (1%Z, s)
    end in
  let magnitude :=
    match s with
    | c0 :: cx :: s' =>
        if (c0 =? 48) && ((cx =? 120) || (cx =? 88))
        then parse_digits hex_digit 16 None s'
        else parse_digits decimal_digit 10 None s
    | _ => parse_digits decimal_digit 10 None s
    end in
  match magnitude with
  | Some m => Num (sign * m)
  | None => NaN
  end.

(** Modelled from the spec: the [GenerationSettings] type is declared in
    the repository's [lib/api] module, which is not among the sources;
    the fields are those of the wizard's initial value. *)
Record GenerationSettings := {
  duration : str;
  humor_level : number;
  focus_areas : list str;
  custom_talking_points : list str
}.

Definition initial_settings : GenerationSettings :=
  {| duration := lit "medium"; humor_level := Num 3;
     focus_areas := []; custom_talking_points := [] |}.

Record FocusOption := { id : str; label : str }.

Definition focusOptions : list FocusOption :=
  [ {| id := lit "utilities"; label := lit "Utilities" |};
    {| id := lit "consumers"; label := lit "Consumers" |};
    {| id := lit "startups"; label := lit "Startups" |};
    {| id := lit "regulatory"; label := lit "Regulatory" |} ].

(** The tuple the duration buttons are mapped from. *)
Definition durations : list str := [lit "short"; lit "medium"; lit "long"].

(** [duration === "short" ? 10 : duration === "medium" ? 20 : 30] *)
Definition minutes (duration : str) : Z :=
  if str_eqb duration (lit "short") then 10
  else if str_eqb duration (lit "medium") then 20
  else 30.

(** [l.includes(a)] *)
Definition includes (a : str) (l : list str) : bool :=
  existsb (str_eqb a) l.

(** The updater passed to [setSettings] by [toggleFocusArea]. *)
Definition toggleFocusArea (area : str) (prev : GenerationSettings)
  : GenerationSettings :=
  {| duration := duration prev;
     humor_level := humor_level prev;
     focus_areas :=
       if includes area (focus_areas prev)
       then List.filter (fun a => negb (str_eqb a area)) (focus_areas prev)
       else focus_areas prev ++ [area];
     custom_talking_points := custom_talking_points prev |}.

(** [(p) => ({ ...p, duration })] *)
Definition selectDuration (d : str) (p : GenerationSettings)
  : GenerationSettings :=
  {| duration := d; humor_level := humor_level p;
     focus_areas := focus_areas p;
     custom_talking_points := custom_talking_points p |}.

(** [(p) => ({ ...p, humor_level: parseInt(e.target.value) })] *)
Definition changeHumor (value : str) (p : GenerationSettings)
  : GenerationSettings :=
  {| duration := duration p; humor_level := parseInt value;
     focus_areas := focus_areas p;
     custom_talking_points := custom_talking_points p |}.

(** The values an [<input type="range" min={1} max={5}>] can hold: the
    browser keeps the value a whole step between the bounds. *)
Definition slider_values : list str :=
  [lit "1"; lit "2"; lit "3"; lit "4"; lit "5"].

Definition progressSteps : list str :=
  [ lit "Analyzing blog content..."; lit "Expanding research insights...";
    lit "Creating script outline..."; lit "Generating dialogue...";
    lit "Finalizing episode..." ].

Inductive Effect :=
| GenerateEpisode (blog_id : str) (settings : GenerationSettings)
| OnComplete (episode : EpisodeDetailPage.Episode)
| OnCancel.

(** The [useState] cells and the live progress timers, newest first,
    each with the [stepIndex] of its closure. *)
Record State := {
  settings : GenerationSettings;
  isGenerating : bool;
  progress : option str;
  error : option str;
  timers : list nat
}.

Definition initial : State :=
  {| settings := initial_settings; isGenerating := false;
     progress := None; error := None; timers := [] |}.

Definition setSettings (f : GenerationSettings -> GenerationSettings)
  (s : State) : State :=
  {| settings := f (settings s); isGenerating := isGenerating s;
     progress := progress s; error := error s; timers := timers s |}.

Definition setProgress (p : option str) (s : State) : State :=
  {| settings := settings s; isGenerating := isGenerating s;
     progress := p; error := error s; timers := timers s |}.

(** [handleGenerate] up to its [await]. *)
Definition handleGenerate (blog_id : str) (s : State)
  : State * list Effect :=
  ({| settings := settings s; isGenerating := true;
      progress := Some (lit "Analyzing blog content...");
      error := None; timers := 0%nat :: timers s |},
   [GenerateEpisode blog_id (settings s)]).

Inductive Result :=
| Ok (episode : EpisodeDetailPage.Episode)
| Throws (msg : option str).

(** [handleGenerate] after the [await]: only the success path clears
    the timer of this call. *)
Definition handleGenerate_settled (r : Result) (s : State)
  : State * list Effect :=
  match r with
  | Ok episode =>
      ({| settings := settings s; isGenerating := false; progress := None;
          error := error s; timers := tail (timers s) |},
       [OnComplete episode])
  | Throws msg =>
      ({| settings := settings s; isGenerating := false; progress := None;
          error := Some (match msg with
                         | Some m => m
                         | None => lit "Generation failed"
                         end);
          timers := timers s |}, [])
  end.

(** The callback of the progress timer at position [i]. *)
Definition progressTick (i : nat) (s : State) : option State :=
  match timers s !! i with
  | Some stepIndex =>
      let stepIndex := S stepIndex in
      let s' := {| settings := settings s; isGenerating := isGenerating s;
                   progress := progress s; error := error s;
                   timers := <[i := stepIndex]> (timers s) |} in
      Some (if (stepIndex <? length progressSteps)%nat
            then setProgress (progressSteps !! stepIndex) s' else s')
  | None => None
  end.

Inductive Event :=
| SelectDuration (duration : str)
| ChangeHumor (value : str)
| ToggleFocusArea (area : str)
| ClickGenerate
| GenerateSettled (r : Result)
| ProgressTick (i : nat)
| ClickCancel.

(** One turn of the event loop.  The controls deliver only what they
    are built from: one duration button per entry of [durations], a
    slider value, one toggle per entry of [focusOptions]; all of them
    are disabled while a generation runs. *)
Definition step (blog_id : str) (s : State) (e : Event)
  : option (State * list Effect) :=
  match e with
  | SelectDuration d =>
      if negb (isGenerating s) && includes d durations
      then Some (setSettings (selectDuration d) s, []) else None
  | ChangeHumor value =>
      if negb (isGenerating s) && includes value slider_values
      then Some (setSettings (changeHumor value) s, []) else None
  | ToggleFocusArea area =>
      if negb (isGenerating s) && includes area (List.map id focusOptions)
      then Some (setSettings (toggleFocusArea area) s, []) else None
  | ClickGenerate =>
      if isGenerating s then None else Some (handleGenerate blog_id s)
  | GenerateSettled r =>
      if isGenerating s then Some (handleGenerate_settled r s) else None
  | ProgressTick i =>
      match progressTick i s with
      | Some s' => Some (s', [])
      | None => None
      end
  | ClickCancel =>
      if isGenerating s then None else Some (s, [OnCancel])
  end.

Fixpoint run (blog_id : str) (s : State) (es : list Event)
  : option (State * list Effect) :=
  match es with
  | [] => Some (s, [])
  | e :: es' =>
      match step blog_id s e with
      | Some (s', out) =>
          match run blog_id s' es' with
          | Some (s'', out') => Some (s'', out ++ out')
          | None => None
          end
      | None => None
      end
  end.

(** The settings invariant of the data model. *)
Definition focus_tags : list str :=
  [lit "utilities"; lit "consumers"; lit "startups"; lit "regulatory"].

Definition humor_ok (n : number) : Prop :=
  match n with
  | Num z => (1 <= z <= 5)%Z
  | NaN => False
  end.

Definition settings_ok (g : GenerationSettings) : Prop :=
  duration g ∈ durations
  /\ humor_ok (humor_level g)
  /\ focus_areas g ⊆ focus_tags.

End GenerationWizard.

(** ** More of the string and array methods *)

Module JSArray.
Import JS.

(** [l.join(sep)] for an array of strings. *)
Fixpoint join (sep : str) (l : list str) : str :=
  match l with
  | [] => []
  | [x] => x
  | x :: rest => x ++ sep ++ join sep rest
  end.

(** [a-z0-9] under the [i] flag, without the [u] flag: the ASCII
    letters of both cases and the digits.  (A character above U+007F
    is never folded onto an ASCII one.) *)
Definition is_alnum (c : N) : bool :=
  is_digit c || ((97 <=? c) && (c <=? 122)) || ((65 <=? c) && (c <=? 90)).

(** [s.replace(/[^a-z0-9]/gi, "_")]: every code unit outside the class
    is replaced, one by one. *)
Definition replace_non_alnum (s : str) : str :=
  List.map (fun c => if is_alnum c then c else 95) s.

(** *** A string as a [Blob] stores it

    A string part of [new Blob([..])] is read as scalar values, a lead
    surrogate followed by a trail surrogate being one supplementary code
    point and a surrogate on its own becoming U+FFFD, and is stored in
    UTF-8; line endings are left alone. *)

Definition is_lead (c : N) : bool := (55296 <=? c) && (c <=? 56319).

Definition is_trail (c : N) : bool := (56320 <=? c) && (c <=? 57343).

Fixpoint scalar_values (s : str) : list N :=
  match s with
  | [] => []
  | c :: rest =>
      if is_lead c then
        match rest with
        | d :: rest' =>
            if is_trail d
            then (65536 + (c - 55296) * 1024 + (d - 56320))
                   :: scalar_values rest'
            else 65533 :: scalar_values rest
        | [] => [65533]
        end
      else if is_trail c then 65533 :: scalar_values rest
      else c :: scalar_values rest
  end.

Definition utf8_bytes (v : N) : list N :=
  if v <? 128 then [v]
  else if v <? 2048 then [192 + v / 64; 128 + v mod 64]
  else if v <? 65536 then
    [224 + v / 4096; 128 + (v / 64) mod 64; 128 + v mod 64]
  else [240 + v / 262144; 128 + (v / 4096) mod 64;
        128 + (v / 64) mod 64; 128 + v mod 64].

Definition utf8 (s : str) : list N := flat_map utf8_bytes (scalar_values s).

End JSArray.

(** ** The script viewer: copy and download *)

Module ScriptViewerActions.
Import JS JSArray.

(** [SaveFile] is the click on the temporary anchor of
    [handleDownload]: its [download] attribute, and the type and the
    bytes of the [Blob] behind its [href]. *)
Inductive Effect :=
| ClipboardWrite (text : str)
| SaveFile (name : str) (mime : str) (bytes : list N).

(** The [copySuccess] cell, the clipboard writes not settled yet and
    the [setTimeout] callbacks not fired yet. *)
Record State := {
  copySuccess : bool;
  writes_in_flight : nat;
  timeouts : nat
}.

Definition initial : State :=
  {| copySuccess := false; writes_in_flight := 0; timeouts := 0 |}.

(** [handleCopy] up to its [await]. *)
Definition handleCopy (script : str) (s : State) : State * list Effect :=
  ({| copySuccess := copySuccess s;
      writes_in_flight := S (writes_in_flight s);
      timeouts := timeouts s |},
   [ClipboardWrite script]).

(** [handleCopy] after the [await]: a rejected write throws out of the
    handler before anything is set. *)
Definition handleCopy_settled (written : bool) (s : State) : State :=
  if written
  then {| copySuccess := true;
          writes_in_flight := pred (writes_in_flight s);
          timeouts := S (timeouts s) |}
  else {| copySuccess := copySuccess s;
          writes_in_flight := pred (writes_in_flight s);
          timeouts := timeouts s |}.

(** [() => setCopySuccess(false)], 2000 ms later. *)
Definition timeout_fired (s : State) : State :=
  {| copySuccess := false; writes_in_flight := writes_in_flight s;
     timeouts := pred (timeouts s) |}.

(** The name given to the downloaded file. *)
Definition download_name (title : str) : str :=
  replace_non_alnum title ++ lit ".txt".

Definition handleDownload (title script : str) : list Effect :=
  [SaveFile (download_name title) (lit "text/plain") (utf8 script)].

Inductive Event :=
| ClickCopy
| CopySettled (written : bool)
| TimeoutFired
| ClickDownload.

Definition step (title script : str) (s : State) (e : Event)
  : option (State * list Effect) :=
  match e with
  | ClickCopy => Some (handleCopy script s)
  | CopySettled written =>
      match writes_in_flight s with
      | S _ => Some (handleCopy_settled written s, [])
      | O => None
      end
  | TimeoutFired =>
      match timeouts s with
      | S _ => Some (timeout_fired s, [])
      | O => None
      end
  | ClickDownload => Some (s, handleDownload title script)
  end.

Fixpoint run (title script : str) (s : State) (es : list Event)
  : option (State * list Effect) :=
  match es with
  | [] => Some (s, [])
  | e :: es' =>
      match step title script s e with
      | Some (s', out) =>
          match run title script s' es' with
          | Some (s'', out') => Some (s'', out ++ out')
          | None => None
          end
      | None => None
      end
  end.

End ScriptViewerActions.

(** ** The episode detail page: loading and deleting *)

Module EpisodePage.
Import JS EpisodeDetailPage.

Inductive Effect :=
| GetEpisode (episodeId : str)
| DeleteEpisode (episodeId : str)
| RouterPush (path : str).

(** The three [useState] cells and the requests not settled yet. *)
Record State := {
  mounted : bool;
  episode : option Episode;
  isLoading : bool;
  error : option str;
  loads_in_flight : nat;
  deletes_in_flight : nat
}.

Definition initial : State :=
  {| mounted := false; episode := None; isLoading := true; error := None;
     loads_in_flight := 0; deletes_in_flight := 0 |}.

(** How a request settles: its value, or a thrown value that carries a
    message when it is an [Error]. *)
Inductive Result (A : Type) := Ok (value : A) | Throws (msg : option str).
Arguments Ok {A} value.
Arguments Throws {A} msg.

Definition message_or (msg : option str) (fallback : string) : str :=
  match msg with
  | Some m => m
  | None => lit fallback
  end.

(** [loadEpisode] up to its [await]. *)
Definition loadEpisode (episodeId : str) (s : State) : State * list Effect :=
  ({| mounted := mounted s; episode := episode s; isLoading := true;
      error := error s; loads_in_flight := S (loads_in_flight s);
      deletes_in_flight := deletes_in_flight s |},
   [GetEpisode episodeId]).

(** [loadEpisode] after the [await], with its [finally]. *)
Definition loadEpisode_settled (r : Result Episode) (s : State) : State :=
  match r with
  | Ok data =>
      {| mounted := mounted s; episode := Some data; isLoading := false;
         error := error s; loads_in_flight := pred (loads_in_flight s);
         deletes_in_flight := deletes_in_flight s |}
  | Throws msg =>
      {| mounted := mounted s; episode := episode s; isLoading := false;
         error := Some (message_or msg "Failed to load episode");
         loads_in_flight := pred (loads_in_flight s);
         deletes_in_flight := deletes_in_flight s |}
  end.

(** [handleDelete] up to its [await]; [confirmed] is what [confirm]
    returned. *)
Definition handleDelete (episodeId : str) (confirmed : bool) (s : State)
  : State * list Effect :=
  if negb confirmed then (s, [])
  else ({| mounted := mounted s; episode := episode s;
           isLoading := isLoading s; error := error s;
           loads_in_flight := loads_in_flight s;
           deletes_in_flight := S (deletes_in_flight s) |},
        [DeleteEpisode episodeId]).

(** [handleDelete] after the [await]. *)
Definition handleDelete_settled (r : Result unit) (s : State)
  : State * list Effect :=
  match r with
  | Ok _ =>
      ({| mounted := mounted s; episode := episode s;
          isLoading := isLoading s; error := error s;
          loads_in_flight := loads_in_flight s;
          deletes_in_flight := pred (deletes_in_flight s) |},
       [RouterPush (lit "/episodes")])
  | Throws msg =>
      ({| mounted := mounted s; episode := episode s;
          isLoading := isLoading s;
          error := Some (message_or msg "Failed to delete episode");
          loads_in_flight := loads_in_flight s;
          deletes_in_flight := pred (deletes_in_flight s) |}, [])
  end.

(** What the page shows: the spinner, the "Episode Not Found" card with
    its message, or the episode with its cards and its script. *)
Inductive View :=
| Spinner
| NotFound (message : str)
| EpisodeView (title : str) (cards : list Card)
              (script : list (nat * ScriptViewer.Element)).

(** A string used as a condition: empty is false. *)
Definition truthy (o : option str) : bool :=
  match o with
  | Some e => negb (falsy e)
  | None => false
  end.

(** [error || "The episode could not be loaded."] *)
Definition error_or_default (o : option str) : str :=
  match o with
  | Some e => if falsy e then lit "The episode could not be loaded." else e
  | None => lit "The episode could not be loaded."
  end.

Definition render (s : State) : View :=
  if isLoading s then Spinner
  else
    match episode s with
    | Some ep =>
        if truthy (error s) then NotFound (error_or_default (error s))
        else EpisodeView (title ep) (insight_cards ep)
                         (ScriptViewer.formatScript (script ep))
    | None => NotFound (error_or_default (error s))
    end.

Definition shows_episode (v : View) : bool :=
  match v with EpisodeView _ _ _ => true | _ => false end.

Inductive Event :=
| Mount
| LoadSettled (r : Result Episode)
| ClickDelete (confirmed : bool)
| DeleteSettled (r : Result unit).

(** One turn of the event loop.  The effect of the mount loads the
    episode when [episodeId] is a non-empty string; the delete button
    exists only in the episode view. *)
Definition step (episodeId : str) (s : State) (e : Event)
  : option (State * list Effect) :=
  match e with
  | Mount =>
      if mounted s then None
      else
        let s := {| mounted := true; episode := episode s;
                    isLoading := isLoading s; error := error s;
                    loads_in_flight := loads_in_flight s;
                    deletes_in_flight := deletes_in_flight s |} in
        if falsy episodeId then Some (s, []) else Some (loadEpisode episodeId s)
  | LoadSettled r =>
      match loads_in_flight s with
      | S _ => Some (loadEpisode_settled r s, [])
      | O => None
      end
  | ClickDelete confirmed =>
      if shows_episode (render s)
      then Some (handleDelete episodeId confirmed s) else None
  | DeleteSettled r =>
      match deletes_in_flight s with
      | S _ => Some (handleDelete_settled r s)
      | O => None
      end
  end.

Fixpoint run (episodeId : str) (s : State) (es : list Event)
  : option (State * list Effect) :=
  match es with
  | [] => Some (s, [])
  | e :: es' =>
      match step episodeId s e with
      | Some (s', out) =>
          match run episodeId s' es' with
          | Some (s'', out') => Some (s'', out ++ out')
          | None => None
          end
      | None => None
      end
  end.

End EpisodePage.

(** ** The header: navigation *)

Module Navigation.
Import JS.

Record NavItem := { href : str; label : str }.

Definition navItems : list NavItem :=
  [ {| href := lit "/"; label := lit "Dashboard" |};
    {| href := lit "/upload"; label := lit "Upload Blog" |};
    {| href := lit "/episodes"; label := lit "Episodes" |};
    {| href := lit "/settings"; label := lit "Settings" |} ].

(** [pathname === item.href] picks the highlighted class. *)
Definition is_active (pathname : str) (item : NavItem) : bool :=
  str_eqb pathname (href item).

(** The links of the header, each with its highlight. *)
Definition nav_links (pathname : str) : list (NavItem * bool) :=
  List.map (fun item => (item, is_active pathname item)) navItems.

End Navigation.

(** ** The dashboard: blogs, episodes and the wizard *)

Module Dashboard.
Import JS.

Definition Blog := BlogUploader.Blog.
Definition Episode := EpisodeDetailPage.Episode.

Inductive Effect :=
| ListBlogs
| ListEpisodes
| DeleteBlog (id : str)
| DeleteEpisode (id : str)
| RouterPush (path : str).

(** The five [useState] cells and the requests not settled yet.  A
    deletion of a blog in flight remembers, with the id, the
    [selectedBlog] its handler closed over: the value of the render in
    which the button was clicked. *)
Record State := {
  mounted : bool;
  blogs : list Blog;
  episodes : list Episode;
  selectedBlog : option Blog;
  showGenerator : bool;
  isLoading : bool;
  loads_in_flight : nat;
  blog_deletes : list (str * option Blog);
  episode_deletes : list str
}.

Definition initial : State :=
  {| mounted := false; blogs := []; episodes := []; selectedBlog := None;
     showGenerator := false; isLoading := true; loads_in_flight := 0;
     blog_deletes := []; episode_deletes := [] |}.

Definition blog_id (b : Blog) : str := BlogUploader.id b.
Definition episode_id (e : Episode) : str := EpisodeDetailPage.id e.

(** [handleBlogUpload] *)
Definition handleBlogUpload (blog : Blog) (s : State) : State :=
  {| mounted := mounted s; blogs := blog :: blogs s; episodes := episodes s;
     selectedBlog := Some blog; showGenerator := true;
     isLoading := isLoading s; loads_in_flight := loads_in_flight s;
     blog_deletes := blog_deletes s; episode_deletes := episode_deletes s |}.

(** [handleBlogSelect] *)
Definition handleBlogSelect (blog : Blog) (s : State) : State :=
  {| mounted := mounted s; blogs := blogs s; episodes := episodes s;
     selectedBlog := Some blog; showGenerator := true;
     isLoading := isLoading s; loads_in_flight := loads_in_flight s;
     blog_deletes := blog_deletes s; episode_deletes := episode_deletes s |}.

(** The wizard's [onCancel]. *)
Definition cancelGeneration (s : State) : State :=
  {| mounted := mounted s; blogs := blogs s; episodes := episodes s;
     selectedBlog := None; showGenerator := false;
     isLoading := isLoading s; loads_in_flight := loads_in_flight s;
     blog_deletes := blog_deletes s; episode_deletes := episode_deletes s |}.

(** [handleGenerationComplete] *)
Definition handleGenerationComplete (episode : Episode) (s : State)
  : State * list Effect :=
  ({| mounted := mounted s; blogs := blogs s;
      episodes := episode :: episodes s;
      selectedBlog := None; showGenerator := false;
      isLoading := isLoading s; loads_in_flight := loads_in_flight s;
      blog_deletes := blog_deletes s;
      episode_deletes := episode_deletes s |},
   [RouterPush (lit "/episodes/" ++ episode_id episode)]).

(** [handleDeleteBlog] up to its [await]. *)
Definition handleDeleteBlog (id : str) (s : State) : State * list Effect :=
  ({| mounted := mounted s; blogs := blogs s; episodes := episodes s;
      selectedBlog := selectedBlog s; showGenerator := showGenerator s;
      isLoading := isLoading s; loads_in_flight := loads_in_flight s;
      blog_deletes := blog_deletes s ++ [(id, selectedBlog s)];
      episode_deletes := episode_deletes s |},
   [DeleteBlog id]).

(** [selectedBlog?.id === id] *)
Definition has_id (id : str) (b : option Blog) : bool :=
  match b with
  | Some blog => str_eqb (blog_id blog) id
  | None => false
  end.

(** [handleDeleteBlog] after the [await], for the request at position
    [k]; a rejected request is logged and changes nothing. *)
Definition handleDeleteBlog_settled (k : nat) (ok : bool) (s : State)
  : option State :=
  match blog_deletes s !! k with
  | Some (id, closed_over) =>
      let pending := delete k (blog_deletes s) in
      if ok then
        let closes := has_id id closed_over in
        Some {| mounted := mounted s;
                blogs := List.filter (fun b => negb (str_eqb (blog_id b) id))
                           (blogs s);
                episodes := episodes s;
                selectedBlog := if closes then None else selectedBlog s;
                showGenerator := if closes then false else showGenerator s;
                isLoading := isLoading s;
                loads_in_flight := loads_in_flight s;
                blog_deletes := pending;
                episode_deletes := episode_deletes s |}
      else
        Some {| mounted := mounted s; blogs := blogs s;
                episodes := episodes s; selectedBlog := selectedBlog s;
                showGenerator := showGenerator s; isLoading := isLoading s;
                loads_in_flight := loads_in_flight s;
                blog_deletes := pending;
                episode_deletes := episode_deletes s |}
  | None => None
  end.

(** [handleDeleteEpisode] up to its [await]. *)
Definition handleDeleteEpisode (id : str) (s : State)
  : State * list Effect :=
  ({| mounted := mounted s; blogs := blogs s; episodes := episodes s;
      selectedBlog := selectedBlog s; showGenerator := showGenerator s;
      isLoading := isLoading s; loads_in_flight := loads_in_flight s;
      blog_deletes := blog_deletes s;
      episode_deletes := episode_deletes s ++ [id] |},
   [DeleteEpisode id]).

(** [handleDeleteEpisode] after the [await]. *)
Definition handleDeleteEpisode_settled (k : nat) (ok : bool) (s : State)
  : option State :=
  match episode_deletes s !! k with
  | Some id =>
      Some {| mounted := mounted s; blogs := blogs s;
              episodes :=
                if ok
                then List.filter (fun e => negb (str_eqb (episode_id e) id))
                       (episodes s)
                else episodes s;
              selectedBlog := selectedBlog s;
              showGenerator := showGenerator s; isLoading := isLoading s;
              loads_in_flight := loads_in_flight s;
              blog_deletes := blog_deletes s;
              episode_deletes := delete k (episode_deletes s) |}
  | None => None
  end.

(** [loadData] after [Promise.all] settles, with its [finally]. *)
Definition loadData_settled (r : option (list Blog * list Episode))
  (s : State) : State :=
  {| mounted := mounted s;
     blogs := match r with Some (bs, _) => bs | None => blogs s end;
     episodes := match r with Some (_, es) => es | None => episodes s end;
     selectedBlog := selectedBlog s; showGenerator := showGenerator s;
     isLoading := false; loads_in_flight := pred (loads_in_flight s);
     blog_deletes := blog_deletes s; episode_deletes := episode_deletes s |}.

(** [showGenerator && selectedBlog]: the right column holds the wizard. *)
Definition wizard_shown (s : State) : bool :=
  showGenerator s && match selectedBlog s with Some _ => true | None => false end.

(** The cards of "Recent Episodes": [episodes.slice(0, 5)]. *)
Definition recent_episodes (s : State) : list Episode := take 5 (episodes s).

Inductive Event :=
| Mount
| LoadSettled (r : option (list Blog * list Episode))
| BlogUploaded (blog : Blog)
| SelectBlog (i : nat)
| ClickDeleteBlog (i : nat)
| BlogDeleteSettled (k : nat) (ok : bool)
| ClickDeleteEpisode (i : nat)
| EpisodeDeleteSettled (k : nat) (ok : bool)
| GenerationComplete (episode : Episode)
| CancelGeneration.

(** One turn of the event loop.  Cards and uploader exist once the
    spinner is gone; a blog card acts on the blog at its position; the
    episode cards are the recent ones and give way to the wizard.  The
    wizard's [onComplete] may still arrive after the wizard was closed
    by a deletion, so it is not tied to the wizard being on screen. *)
Definition step (s : State) (e : Event) : option (State * list Effect) :=
  match e with
  | Mount =>
      if mounted s then None
      else Some ({| mounted := true; blogs := blogs s;
                    episodes := episodes s; selectedBlog := selectedBlog s;
                    showGenerator := showGenerator s; isLoading := true;
                    loads_in_flight := S (loads_in_flight s);
                    blog_deletes := blog_deletes s;
                    episode_deletes := episode_deletes s |},
                 [ListBlogs; ListEpisodes])
  | LoadSettled r =>
      match loads_in_flight s with
      | S _ => Some (loadData_settled r s, [])
      | O => None
      end
  | BlogUploaded blog =>
      if isLoading s then None else Some (handleBlogUpload blog s, [])
  | SelectBlog i =>
      if isLoading s then None
      else match blogs s !! i with
           | Some blog => Some (handleBlogSelect blog s, [])
           | None => None
           end
  | ClickDeleteBlog i =>
      if isLoading s then None
      else match blogs s !! i with
           | Some blog => Some (handleDeleteBlog (blog_id blog) s)
           | None => None
           end
  | BlogDeleteSettled k ok =>
      match handleDeleteBlog_settled k ok s with
      | Some s' => Some (s', [])
      | None => None
      end
  | ClickDeleteEpisode i =>
      if isLoading s || wizard_shown s then None
      else match recent_episodes s !! i with
           | Some ep => Some (handleDeleteEpisode (episode_id ep) s)
           | None => None
           end
  | EpisodeDeleteSettled k ok =>
      match handleDeleteEpisode_settled k ok s with
      | Some s' => Some (s', [])
      | None => None
      end
  | GenerationComplete episode =>
      if isLoading s then None
      else Some (handleGenerationComplete episode s)
  | CancelGeneration =>
      if isLoading s || negb (wizard_shown s) then None
      else Some (cancelGeneration s, [])
  end.

Inductive reachable : State -> Prop :=
| reachable_initial : reachable initial
| reachable_step s e s' out :
    reachable s -> step s e = Some (s', out) -> reachable s'.

End Dashboard.

(** * Properties *)

(** ** Facts about the string methods and the matcher *)

Module JSFacts.
Import JS.

Example trim_both_ends : trim ([9] ++ lit "  a b " ++ [13]) = lit "a b".
Proof. reflexivity. Qed.

Example split_keeps_empty_lines :
  split_nl (lit "a" ++ [10; 10] ++ lit "b" ++ [10])
  = [lit "a"; []; lit "b"; []].
Proof. reflexivity. Qed.

Example endsWith_markdown :
  endsWith (lit ".md") (lit "post.md") = true
  /\ endsWith (lit ".md") (lit "post.md.txt") = false
  /\ endsWith (lit ".markdown") (lit "md") = false.
Proof. repeat split. Qed.

Lemma str_eqb_eq (a b : str) : str_eqb a b = true <-> a = b.
Proof.
  revert b. induction a as [|x a IH]; intros [|y b]; simpl;
    try (split; [discriminate | congruence]); [easy|].
  rewrite andb_true_iff, N.eqb_eq, IH.
  split; [intros [-> ->]; reflexivity | intros [= -> ->]; auto].
Qed.

Lemma str_eqb_refl (a : str) : str_eqb a a = true.
Proof. now apply str_eqb_eq. Qed.

Lemma str_eqb_neq (a b : str) : str_eqb a b = false <-> a <> b.
Proof.
  rewrite <- str_eqb_eq. destruct (str_eqb a b); split; congruence.
Qed.

Lemma startsWith_app (p rest : str) : startsWith p (p ++ rest) = true.
Proof.
  induction p as [|x p IH]; simpl; [reflexivity|].
  now rewrite N.eqb_refl, IH.
Qed.

Lemma startsWith_inv (p s : str) :
  startsWith p s = true -> exists rest, s = p ++ rest.
Proof.
  revert s. induction p as [|x p IH]; intros s H; simpl in *.
  - now exists s.
  - destruct s as [|y s]; [discriminate|].
    apply andb_true_iff in H as [Hxy H]. apply N.eqb_eq in Hxy as ->.
    destruct (IH _ H) as [rest ->]. now exists rest.
Qed.

Lemma startsWith_iff (p s : str) :
  startsWith p s = true <-> exists rest, s = p ++ rest.
Proof.
  split; [apply startsWith_inv | intros [rest ->]; apply startsWith_app].
Qed.

Lemma endsWith_iff (p s : str) :
  endsWith p s = true <-> exists front, s = front ++ p.
Proof.
  unfold endsWith. rewrite startsWith_iff. split.
  - intros [r Hr]. exists (rev r).
    rewrite <- (rev_involutive s), Hr, rev_app_distr.
    now rewrite rev_involutive.
  - intros [front ->]. exists (rev front). now rewrite rev_app_distr.
Qed.

(** White space only is what [trim] empties. *)
Lemma trimStart_nil (s : str) :
  trimStart s = [] <-> forallb is_space s = true.
Proof.
  induction s as [|c s IH]; simpl; [easy|].
  destruct (is_space c); simpl; [exact IH | easy].
Qed.

Lemma trimStart_all_space (s : str) :
  forallb is_space s = true -> trimStart s = [].
Proof. apply trimStart_nil. Qed.

Lemma trim_nil (s : str) : trim s = [] <-> forallb is_space s = true.
Proof.
  unfold trim. split.
  - intros H. destruct (decide (trimStart s = [])) as [E|E].
    + now apply trimStart_nil.
    + exfalso. apply (f_equal (@rev N)) in H.
      rewrite rev_involutive in H. simpl in H.
      destruct (trimStart s) as [|c t] eqn:Et; [easy|].
      (* the first character kept by [trimStart] is not white space *)
      assert (Hc : is_space c = false).
      { clear -Et. induction s as [|x s IH]; simpl in Et; [discriminate|].
        destruct (is_space x) eqn:Hx; [auto | congruence]. }
      assert (Hin : In c (rev (c :: t))) by (apply in_rev; rewrite rev_involutive; now left).
      apply trimStart_nil in H.
      rewrite forallb_forall in H. specialize (H _ Hin). congruence.
  - intros H. now rewrite (trimStart_all_space _ H).
Qed.

Lemma falsy_nil (s : str) : falsy s = true <-> s = [].
Proof. destruct s; simpl; split; congruence. Qed.

(** The text [trimStart] keeps does not start with white space. *)
Lemma trimStart_head (s : str) :
  match trimStart s with c :: _ => is_space c = false | [] => True end.
Proof.
  induction s as [|x s IH]; simpl; [exact I|].
  destruct (is_space x) eqn:Hx; [exact IH | exact Hx].
Qed.

Lemma trimStart_split (s : str) :
  exists w, s = w ++ trimStart s /\ forallb is_space w = true.
Proof.
  induction s as [|x s [w [Hw Hs]]]; simpl.
  - now exists [].
  - destruct (is_space x) eqn:Hx.
    + exists (x :: w). simpl. rewrite Hx, Hs. split; [congruence | reflexivity].
    + now exists [].
Qed.

(** *** The star loop *)

(** With nothing left to match, a star eats the longest run. *)
Lemma star_exec_final (cls : N -> bool) (s : str) :
  exists t rest,
    s = t ++ rest /\ forallb cls t = true
    /\ match rest with c :: _ => cls c = false | [] => True end
    /\ star_exec cls Some s = Some rest.
Proof.
  induction s as [|x s (t & rest & Hs & Ht & Hr & E)]; simpl.
  - now exists [], [].
  - destruct (cls x) eqn:Hx.
    + exists (x :: t), rest. simpl. rewrite Hx, Ht, E. subst s. auto.
    + exists [], (x :: s). auto.
Qed.

Lemma star_exec_space_final (s : str) :
  star_exec is_space Some s = Some (trimStart s).
Proof.
  induction s as [|x s IH]; simpl; [reflexivity|].
  destruct (is_space x); [now rewrite IH | reflexivity].
Qed.

(** A star followed by [k] matches whenever [k] matches after some run. *)
Lemma star_exec_is_Some (cls : N -> bool) (k : str -> option str)
  (t rest : str) :
  forallb cls t = true -> is_Some (k rest) ->
  is_Some (star_exec cls k (t ++ rest)).
Proof.
  intros Ht Hk. induction t as [|x t IH]; simpl in *.
  - destruct rest as [|c s]; simpl; [exact Hk|].
    destruct (cls c); [|exact Hk].
    destruct (star_exec cls k s); simpl; [eauto | exact Hk].
  - apply andb_true_iff in Ht as [-> Ht].
    destruct (IH Ht) as [r ->]. simpl. eauto.
Qed.

Lemma star_exec_inv (cls : N -> bool) (k : str -> option str) (s r : str) :
  star_exec cls k s = Some r ->
  exists t rest, s = t ++ rest /\ forallb cls t = true /\ k rest = Some r.
Proof.
  revert r. induction s as [|x s IH]; simpl; intros r H.
  - now exists [], [].
  - destruct (cls x) eqn:Hx.
    + destruct (star_exec cls k s) as [r'|] eqn:E; simpl in H.
      * destruct (IH _ eq_refl) as (t & rest & -> & Ht & Hk).
        exists (x :: t), rest. simpl. rewrite Hx, Ht. split; [reflexivity|].
        split; [reflexivity|]. congruence.
      * now exists [], (x :: s).
    + now exists [], (x :: s).
Qed.

(** A star whose continuation rejects every text that starts inside the
    class stops exactly at the end of the run. *)
Lemma star_exec_run (cls : N -> bool) (k : str -> option str)
  (t rest : str) :
  forallb cls t = true ->
  match rest with c :: _ => cls c = false | [] => True end ->
  (forall c s, cls c = true -> k (c :: s) = None) ->
  star_exec cls k (t ++ rest) = k rest.
Proof.
  intros Ht Hr Hk. induction t as [|x t IH]; simpl in *.
  - destruct rest as [|c s]; simpl; [reflexivity|]. now rewrite Hr.
  - apply andb_true_iff in Ht as [Hx Ht]. rewrite Hx, (IH Ht).
    destruct (k rest) eqn:E; simpl; [reflexivity|]. now apply Hk.
Qed.

(** *** Sequencing *)

Lemma star_exec_ext (cls : N -> bool) (k1 k2 : str -> option str) :
  (forall s, k1 s = k2 s) -> forall s, star_exec cls k1 s = star_exec cls k2 s.
Proof.
  intros H s. induction s as [|x s IH]; simpl; [apply H|].
  now rewrite IH, H.
Qed.

Lemma exec_atoms_ext (p : list atom) (k1 k2 : str -> option str) :
  (forall s, k1 s = k2 s) ->
  forall s, exec_atoms p k1 s = exec_atoms p k2 s.
Proof.
  revert k1 k2. induction p as [|[cls q] p IH]; intros k1 k2 H s; simpl.
  - apply H.
  - pose proof (IH _ _ H) as E. destruct q.
    + destruct s as [|c s]; [reflexivity|]. now rewrite E.
    + destruct s as [|c s]; [apply E|]. now rewrite !E.
    + now apply star_exec_ext.
    + destruct s as [|c s]; [reflexivity|].
      destruct (cls c); [now apply star_exec_ext | reflexivity].
Qed.

Lemma exec_atoms_app (p1 p2 : list atom) (k : str -> option str) (s : str) :
  exec_atoms (p1 ++ p2) k s = exec_atoms p1 (exec_atoms p2 k) s.
Proof.
  revert s. induction p1 as [|[cls q] p1 IH]; intros s; simpl; [reflexivity|].
  destruct q.
  - destruct s as [|c s]; [reflexivity|]. now rewrite IH.
  - destruct s as [|c s]; [apply IH|]. now rewrite !IH.
  - now apply star_exec_ext.
  - destruct s as [|c s]; [reflexivity|].
    destruct (cls c); [now apply star_exec_ext | reflexivity].
Qed.

End JSFacts.

(** ** The script viewer *)

Module ScriptViewerProps.
Import JS JSFacts ScriptViewer.

Local Open Scope char_scope.

(** [formatScript] renders line [i] of the script as [formatLine]
    renders it, and keys it by [i]. *)
Lemma formatScript_line (script : str) (i : nat) (line : str) :
  split_nl script !! i = Some line ->
  formatScript script !! i = Some (i, formatLine line).
Proof.
  intros H. unfold formatScript. now rewrite list_lookup_imap, H.
Qed.

Lemma formatScript_length (script : str) :
  length (formatScript script) = length (split_nl script).
Proof. apply length_imap. Qed.

(** The two-line script of the spec's scenario. *)
Example formatScript_scenario :
  formatScript (lit "DOUG: Hello." ++ [10] ++ lit "CLAIRE: Hi there.")
  = [(0%nat, SpeakerLine Doug (lit "Hello."));
     (1%nat, SpeakerLine Claire (lit "Hi there."))].
Proof. reflexivity. Qed.

Example formatScript_kinds :
  List.map (fun e => kind (snd e))
    (formatScript (lit "# Cold open" ++ [10] ++ lit "[00:00]" ++ [10]
                   ++ lit "[intro music]" ++ [10] ++ lit "**DOUG:** Hi"
                   ++ [10] ++ lit "---" ++ [10] ++ lit ""))
  = [KHeading; KTimestamp; KStageDirection; KSpeaker; KOther; KOther].
Proof. reflexivity. Qed.

(** One optional [*]. *)
Definition strip_star (s : str) : str :=
  match s with
  | c :: s' => if is_char "*" c then s' else s
  | [] => []
  end.

Definition label_tail : list atom :=
  [(is_char "*", Opt); (is_char "*", Opt); (is_space, Star)].

Lemma exec_label_tail (s : str) :
  exec_atoms label_tail Some s
  = Some (trimStart (strip_star (strip_star s))).
Proof.
  assert (H1 : forall u, exec_atoms [(is_char "*", Opt); (is_space, Star)] Some u
                         = Some (trimStart (strip_star u))).
  { intros [|c u]; cbn [exec_atoms strip_star]; [reflexivity|].
    destruct (is_char "*" c).
    - now rewrite star_exec_space_final.
    - apply star_exec_space_final. }
  destruct s as [|c s].
  - reflexivity.
  - change (exec_atoms label_tail Some (c :: s))
      with (if is_char "*" c
            then or_else (exec_atoms [(is_char "*", Opt); (is_space, Star)] Some s)
                         (exec_atoms [(is_char "*", Opt); (is_space, Star)] Some (c :: s))
            else exec_atoms [(is_char "*", Opt); (is_space, Star)] Some (c :: s)).
    rewrite !H1. cbn [strip_star].
    destruct (is_char "*" c) eqn:Hc; cbn [or_else]; [reflexivity|].
    cbn [strip_star]. now rewrite Hc.
Qed.

Lemma exec_speaker (prefix : list atom) (s : str) :
  exec_atoms (prefix ++ label_tail) (finish false) s
  = exec_atoms prefix
      (fun u => Some (trimStart (strip_star (strip_star u)))) s.
Proof.
  rewrite exec_atoms_app. apply exec_atoms_ext. intros u.
  apply exec_label_tail.
Qed.

Lemma replace_doug_plain (rest : str) :
  replace_empty re_doug (lit "DOUG:" ++ rest)
  = trimStart (strip_star (strip_star rest)).
Proof.
  unfold replace_empty, exec, re_doug. cbn [atoms anchored_end].
  rewrite (app_assoc _ (lits "DOUG:")).
  change [(is_char "*", Opt); (is_char "*", Opt); (is_space, Star)]
    with label_tail.
  now rewrite exec_speaker.
Qed.

Lemma replace_doug_bold (rest : str) :
  replace_empty re_doug (lit "**DOUG:**" ++ rest) = trimStart rest.
Proof.
  unfold replace_empty, exec, re_doug. cbn [atoms anchored_end].
  rewrite (app_assoc _ (lits "DOUG:")).
  change [(is_char "*", Opt); (is_char "*", Opt); (is_space, Star)]
    with label_tail.
  now rewrite exec_speaker.
Qed.

Lemma replace_claire_plain (rest : str) :
  replace_empty re_claire (lit "CLAIRE:" ++ rest)
  = trimStart (strip_star (strip_star rest)).
Proof.
  unfold replace_empty, exec, re_claire. cbn [atoms anchored_end].
  rewrite (app_assoc _ (lits "CLAIRE:")).
  change [(is_char "*", Opt); (is_char "*", Opt); (is_space, Star)]
    with label_tail.
  now rewrite exec_speaker.
Qed.

Lemma replace_claire_bold (rest : str) :
  replace_empty re_claire (lit "**CLAIRE:**" ++ rest) = trimStart rest.
Proof.
  unfold replace_empty, exec, re_claire. cbn [atoms anchored_end].
  rewrite (app_assoc _ (lits "CLAIRE:")).
  change [(is_char "*", Opt); (is_char "*", Opt); (is_space, Star)]
    with label_tail.
  now rewrite exec_speaker.
Qed.

(** *** What "the label is stripped" means *)

Definition stars (n : nat) : str := repeat (ch "*") n.

Definition head_is (cls : N -> bool) (s : str) : bool :=
  match s with c :: _ => cls c | [] => false end.

(** [text] is [line] without the label of [name]: the label is the name
    and its colon, the emphasis asterisks around them (at most two on
    each side) and all the white space that follows; nothing of the
    label is left at the start of [text]. *)
Definition without_label (name : string) (line text : str) : Prop :=
  exists (before after : nat) (spaces : str),
    line = stars before ++ lit name ++ lit ":" ++ stars after
           ++ spaces ++ text
    /\ (before <= 2)%nat /\ (after <= 2)%nat
    /\ forallb is_space spaces = true
    /\ head_is is_space text = false
    /\ ((after < 2)%nat -> spaces = [] -> head_is (is_char "*") text = false).

Definition speaker_name (who : Speaker) : string :=
  match who with Doug => "DOUG" | Claire => "CLAIRE" end%string.

(** The line begins with [NAME:] or with [**NAME:**]. *)
Definition labelled (who : Speaker) (line : str) : Prop :=
  startsWith (lit (speaker_name who ++ ":")) line = true
  \/ startsWith (lit ("**" ++ speaker_name who ++ ":**")) line = true.

Lemma strip_stars_split (rest : str) :
  exists after,
    rest = stars after ++ strip_star (strip_star rest)
    /\ (after <= 2)%nat
    /\ ((after < 2)%nat ->
        head_is (is_char "*") (strip_star (strip_star rest)) = false).
Proof.
  destruct rest as [|c rest]; [exists 0%nat; simpl; auto|].
  simpl. destruct (is_char "*" c) eqn:Hc.
  - apply N.eqb_eq in Hc as ->.
    destruct rest as [|d rest]; [exists 1%nat; simpl; auto|].
    simpl. destruct (is_char "*" d) eqn:Hd.
    + apply N.eqb_eq in Hd as ->. exists 2%nat. simpl. split; [easy|]. lia.
    + exists 1%nat. simpl. auto.
  - exists 0%nat. simpl. rewrite Hc. simpl. auto.
Qed.

Lemma head_trimStart_space (s : str) : head_is is_space (trimStart s) = false.
Proof.
  pose proof (trimStart_head s) as H. destruct (trimStart s); simpl; auto.
Qed.

Lemma without_label_plain (name : string) (rest : str) :
  without_label name (lit name ++ lit ":" ++ rest)
                (trimStart (strip_star (strip_star rest))).
Proof.
  destruct (strip_stars_split rest) as (after & Hrest & Hle & Hstar).
  destruct (trimStart_split (strip_star (strip_star rest))) as (w & Hw & Hsp).
  exists 0%nat, after, w. repeat split.
  - simpl. do 2 f_equal. rewrite <- Hw. exact Hrest.
  - lia.
  - exact Hle.
  - exact Hsp.
  - apply head_trimStart_space.
  - intros Hlt ->. simpl in Hw. rewrite <- Hw. auto.
Qed.

Lemma without_label_bold (name : string) (rest : str) :
  without_label name (lit "**" ++ lit name ++ lit ":" ++ lit "**" ++ rest)
                (trimStart rest).
Proof.
  destruct (trimStart_split rest) as (w & Hw & Hsp).
  exists 2%nat, 2%nat, w. repeat split; try lia.
  - change (stars 2) with (lit "**"). now rewrite <- Hw.
  - exact Hsp.
  - apply head_trimStart_space.
Qed.

Lemma speaker_line_formatted (who : Speaker) (line : str) :
  labelled who line ->
  exists text,
    formatLine line = SpeakerLine who text
    /\ without_label (speaker_name who) line text.
Proof.
  intros [H|H]; apply startsWith_inv in H as [rest ->]; destruct who.
  - exists (trimStart (strip_star (strip_star rest))). split.
    + change (lit (speaker_name Doug ++ ":") ++ rest)
        with (lit "DOUG:" ++ rest).
      unfold formatLine. rewrite startsWith_app. cbn [orb].
      now rewrite replace_doug_plain.
    + apply (without_label_plain "DOUG").
  - exists (trimStart (strip_star (strip_star rest))). split.
    + change (lit (speaker_name Claire ++ ":") ++ rest)
        with (lit "CLAIRE:" ++ rest).
      unfold formatLine.
      change (startsWith (lit "DOUG:") (lit "CLAIRE:" ++ rest)) with false.
      change (startsWith (lit "**DOUG:**") (lit "CLAIRE:" ++ rest)) with false.
      rewrite startsWith_app. cbn [orb].
      now rewrite replace_claire_plain.
    + apply (without_label_plain "CLAIRE").
  - exists (trimStart rest). split.
    + change (lit ("**" ++ speaker_name Doug ++ ":**") ++ rest)
        with (lit "**DOUG:**" ++ rest).
      unfold formatLine.
      change (startsWith (lit "DOUG:") (lit "**DOUG:**" ++ rest)) with false.
      rewrite startsWith_app. cbn [orb].
      now rewrite replace_doug_bold.
    + apply (without_label_bold "DOUG").
  - exists (trimStart rest). split.
    + change (lit ("**" ++ speaker_name Claire ++ ":**") ++ rest)
        with (lit "**CLAIRE:**" ++ rest).
      unfold formatLine.
      change (startsWith (lit "DOUG:") (lit "**CLAIRE:**" ++ rest)) with false.
      change (startsWith (lit "**DOUG:**") (lit "**CLAIRE:**" ++ rest)) with false.
      change (startsWith (lit "CLAIRE:") (lit "**CLAIRE:**" ++ rest)) with false.
      rewrite startsWith_app. cbn [orb].
      now rewrite replace_claire_bold.
    + apply (without_label_bold "CLAIRE").
Qed.

(** C2. A line of the script that begins with [DOUG:] or [**DOUG:**]
    is rendered by [formatScript] as Doug's dialogue, and the text
    displayed is the line without its label: the name and colon, the
    emphasis asterisks and the white space after the colon are gone.
    The same holds for [CLAIRE:] and [**CLAIRE:**] and Claire's
    dialogue. *)
Theorem speaker_line_rendered (who : Speaker) (script : str) (i : nat)
  (line : str) :
  split_nl script !! i = Some line ->
  labelled who line ->
  exists text,
    formatScript script !! i = Some (i, SpeakerLine who text)
    /\ without_label (speaker_name who) line text.
Proof.
  intros Hline Hlab.
  destruct (speaker_line_formatted who line Hlab) as (text & Hfmt & Hwo).
  exists text. split; [|exact Hwo].
  now rewrite (formatScript_line _ _ _ Hline), Hfmt.
Qed.

(** The line [**CLAIRE:**  Not so fast.] is Claire's. *)
Lemma speaker_line_rendered_witness :
  exists text,
    formatScript (lit "DOUG: Rates are up." ++ [10]
                  ++ lit "**CLAIRE:**  Not so fast.") !! 1%nat
    = Some (1%nat, SpeakerLine Claire text)
    /\ without_label "CLAIRE" (lit "**CLAIRE:**  Not so fast.") text.
Proof.
  apply (speaker_line_rendered Claire
           (lit "DOUG: Rates are up." ++ [10]
            ++ lit "**CLAIRE:**  Not so fast.") 1%nat
           (lit "**CLAIRE:**  Not so fast.")).
  - reflexivity.
  - right. reflexivity.
Defined.

(** *** Bracketed lines *)

(** A run of [n] digits. *)
Definition digits (n : nat) (s : str) : Prop :=
  length s = n /\ forallb is_digit s = true.

(** [[MM:SS]] or [[HH:MM:SS]] at the start of the line. *)
Definition timestamp_at_start (line : str) : Prop :=
  (exists mm ss rest,
      digits 2 mm /\ digits 2 ss
      /\ line = lit "[" ++ mm ++ lit ":" ++ ss ++ lit "]" ++ rest)
  \/ (exists hh mm ss rest,
         digits 2 hh /\ digits 2 mm /\ digits 2 ss
         /\ line = lit "[" ++ hh ++ lit ":" ++ mm ++ lit ":" ++ ss
                   ++ lit "]" ++ rest).

(** The line is [body] wrapped in one pair of brackets. *)
Definition wrapped (line body : str) : Prop :=
  line = lit "[" ++ body ++ lit "]".

Definition is_bracket (c : N) : bool := is_char "[" c || is_char "]" c.

(** A single pair: no further bracket inside. *)
Definition single_pair (body : str) : bool :=
  forallb (fun c => negb (is_bracket c)) body.

Definition no_leading (cls : N -> bool) (body : str) : bool :=
  negb (head_is cls body).

Definition one_line (body : str) : bool :=
  forallb (fun c => negb (is_line_terminator c)) body.

Lemma not_speaker_bracket (rest : str) :
  (startsWith (lit "DOUG:") (lit "[" ++ rest)
   || startsWith (lit "**DOUG:**") (lit "[" ++ rest) = false)
  /\ (startsWith (lit "CLAIRE:") (lit "[" ++ rest)
      || startsWith (lit "**CLAIRE:**") (lit "[" ++ rest) = false).
Proof. split; reflexivity. Qed.

(** After the two speaker tests, a line that starts with a bracket
    reaches the two bracket tests. *)
Lemma formatLine_bracket (rest : str) :
  formatLine (lit "[" ++ rest)
  = if test re_timestamp (lit "[" ++ rest)
    then TimestampMarker (lit "[" ++ rest)
    else if test re_stage (lit "[" ++ rest)
         then StageDirection (lit "[" ++ rest)
         else if test re_rule (lit "[" ++ rest) then HorizontalRule
              else if falsy (trim (lit "[" ++ rest)) then EmptyLine
                   else RegularText (lit "[" ++ rest).
Proof. reflexivity. Qed.

Lemma timestamp_run (t rest : str) :
  t <> [] -> forallb is_digit_or_colon t = true ->
  test re_timestamp (lit "[" ++ t ++ lit "]" ++ rest) = true.
Proof.
  intros Hne Ht. destruct t as [|c t]; [congruence|].
  simpl in Ht. apply andb_true_iff in Ht as [Hc Ht].
  unfold test, exec. cbn -[is_digit_or_colon star_exec].
  rewrite Hc.
  destruct (star_exec_is_Some is_digit_or_colon
              (exec_atoms (lits "]") (finish false)) t (lit "]" ++ rest) Ht)
    as [r Hr]; [exists rest; reflexivity|].
  cbn -[is_digit_or_colon star_exec] in Hr. now rewrite Hr.
Qed.

Lemma timestamp_needs_run (body : str) :
  no_leading is_digit_or_colon body = true ->
  test re_timestamp (lit "[" ++ body ++ lit "]") = false.
Proof.
  intros H. destruct body as [|c body]; [reflexivity|].
  unfold no_leading in H. simpl in H. apply negb_true_iff in H.
  unfold test, exec. cbn -[is_digit_or_colon star_exec]. now rewrite H.
Qed.

Lemma stage_wrapped (body : str) :
  one_line body = true ->
  test re_stage (lit "[" ++ body ++ lit "]") = true.
Proof.
  intros H. unfold test, exec. cbn -[is_dot star_exec].
  assert (Hdot : forallb is_dot body = true) by exact H.
  destruct (star_exec_is_Some is_dot
              (exec_atoms (lits "]") (finish true)) body (lit "]") Hdot)
    as [r Hr]; [exists []; reflexivity|].
  cbn -[is_dot star_exec] in Hr. now rewrite Hr.
Qed.

Lemma digits_colon (s : str) :
  forallb is_digit s = true -> forallb is_digit_or_colon s = true.
Proof.
  intros H. apply forallb_forall. intros c Hc.
  rewrite forallb_forall in H. unfold is_digit_or_colon. now rewrite (H c Hc).
Qed.

Lemma timestamp_at_start_test (line : str) :
  timestamp_at_start line ->
  exists rest, line = lit "[" ++ rest /\ test re_timestamp line = true.
Proof.
  intros [(mm & ss & rest & [Lm Hm] & [Ls Hs] & ->)
         |(hh & mm & ss & rest & [Lh Hh] & [Lm Hm] & [Ls Hs] & ->)].
  - eexists; split; [reflexivity|].
    replace (lit "[" ++ mm ++ lit ":" ++ ss ++ lit "]" ++ rest)
      with (lit "[" ++ (mm ++ lit ":" ++ ss) ++ lit "]" ++ rest)
      by now rewrite <- !app_assoc.
    apply timestamp_run.
    + destruct mm; [discriminate | discriminate].
    + rewrite !forallb_app, (digits_colon mm), (digits_colon ss)
        by assumption.
      reflexivity.
  - eexists; split; [reflexivity|].
    replace (lit "[" ++ hh ++ lit ":" ++ mm ++ lit ":" ++ ss ++ lit "]" ++ rest)
      with (lit "[" ++ (hh ++ lit ":" ++ mm ++ lit ":" ++ ss)
              ++ lit "]" ++ rest)
      by now rewrite <- !app_assoc.
    apply timestamp_run.
    + destruct hh; [discriminate | discriminate].
    + rewrite !forallb_app, (digits_colon hh), (digits_colon mm),
        (digits_colon ss) by assumption.
      reflexivity.
Qed.

(** C1, amended.  [formatScript] renders every line of the script as
    [formatLine] renders it.  A line that starts with [[MM:SS]] or [[HH:MM:SS]] is
    rendered as a timestamp marker.  A line wrapped in one bracket pair
    whose body holds no line terminator and does not start with a digit
    or a colon is rendered as a stage direction.  Every line gets
    exactly one line kind, so never both a timestamp and a stage
    direction, and a bracket-wrapped line whose body holds no line
    terminator gets one of the two bracketed kinds. *)
Theorem bracketed_lines_rendered (line : str) :
  (forall script i,
      split_nl script !! i = Some line ->
      formatScript script !! i = Some (i, formatLine line))
  /\ (timestamp_at_start line -> formatLine line = TimestampMarker line)
  /\ (forall body,
        wrapped line body -> one_line body = true ->
        no_leading is_digit_or_colon body = true ->
        formatLine line = StageDirection line)
  /\ (forall body,
        wrapped line body -> one_line body = true ->
        kind (formatLine line) = KTimestamp
        \/ kind (formatLine line) = KStageDirection)
  /\ (exists k, kind (formatLine line) = k
                /\ forall k', kind (formatLine line) = k' -> k' = k)
  /\ ~ (kind (formatLine line) = KTimestamp
        /\ kind (formatLine line) = KStageDirection).
Proof.
  split; [intros script i; apply formatScript_line|].
  repeat split.
  - intros H. destruct (timestamp_at_start_test _ H) as (rest & -> & Ht).
    now rewrite formatLine_bracket, Ht.
  - intros body -> Hone Hlead.
    now rewrite formatLine_bracket, timestamp_needs_run, stage_wrapped.
  - intros body -> Hone. rewrite formatLine_bracket.
    destruct (test re_timestamp _); [now left|].
    rewrite stage_wrapped by assumption. now right.
  - exists (kind (formatLine line)). split; [reflexivity | congruence].
  - intros [H1 H2]. congruence.
Qed.

(** [[01:30] Welcome back] is a timestamp, [[laughs]] a stage direction. *)
Lemma bracketed_lines_rendered_witness :
  formatLine (lit "[01:30] Welcome back")
  = TimestampMarker (lit "[01:30] Welcome back")
  /\ formatLine (lit "[laughs]") = StageDirection (lit "[laughs]")
  /\ (kind (formatLine (lit "[12:00:05]")) = KTimestamp
      \/ kind (formatLine (lit "[12:00:05]")) = KStageDirection).
Proof.
  split; [|split].
  - apply (proj1 (proj2
             (bracketed_lines_rendered (lit "[01:30] Welcome back")))).
    left. exists (lit "01"), (lit "30"), (lit " Welcome back").
    repeat split; reflexivity.
  - apply (proj1 (proj2 (proj2 (bracketed_lines_rendered (lit "[laughs]"))))
             (lit "laughs")); reflexivity.
  - apply (proj1 (proj2 (proj2 (proj2
             (bracketed_lines_rendered (lit "[12:00:05]")))))
             (lit "12:00:05")); reflexivity.
Defined.

(** C1 as stated fails.  [[:]] is wrapped in a single bracket pair and
    has no leading digit, yet it is rendered as a timestamp marker, not
    as a stage direction; and [[a<CR>b]] is wrapped in a single bracket
    pair, yet it is rendered as regular text, outside both bracketed
    kinds. *)
Lemma bracketed_lines_counterexample :
  (wrapped (lit "[:]") (lit ":")
   /\ single_pair (lit ":") = true
   /\ no_leading is_digit (lit ":") = true
   /\ formatScript (lit "[:]") = [(0%nat, TimestampMarker (lit "[:]"))]
   /\ formatLine (lit "[:]") <> StageDirection (lit "[:]"))
  /\ (wrapped (lit "[a" ++ [13] ++ lit "b]") (lit "a" ++ [13] ++ lit "b")
      /\ single_pair (lit "a" ++ [13] ++ lit "b") = true
      /\ no_leading is_digit (lit "a" ++ [13] ++ lit "b") = true
      /\ formatScript (lit "[a" ++ [13] ++ lit "b]")
         = [(0%nat, RegularText (lit "[a" ++ [13] ++ lit "b]"))]
      /\ kind (formatLine (lit "[a" ++ [13] ++ lit "b]")) <> KTimestamp
      /\ kind (formatLine (lit "[a" ++ [13] ++ lit "b]")) <> KStageDirection).
Proof.
  repeat split; try reflexivity; discriminate.
Qed.

End ScriptViewerProps.

(** ** The episode detail page *)

Module EpisodeDetailPageProps.
Import JS EpisodeDetailPage.

Lemma card_Some (c : Category) (i : Insights) (k : Card) :
  card c i = Some k <->
  category_items c i <> []
  /\ k = {| heading := c;
           items := imap (fun n item => (n, item))
                         (take 2 (category_items c i)) |}.
Proof.
  unfold card. destruct (category_items c i) as [|x xs]; simpl.
  - split; [discriminate | intros [H _]; congruence].
  - split; [intros [= <-]; split; [discriminate | reflexivity]
           | intros [_ ->]; reflexivity].
Qed.

Lemma rendered_cards_elem (i : Insights) (k : Card) :
  k ∈ rendered_cards (Some i) <-> exists c, card c i = Some k.
Proof.
  unfold rendered_cards, insights_section, insights_grid.
  rewrite list_elem_of_omap. split.
  - intros (o & Ho & ->).
    rewrite !elem_of_cons, elem_of_nil in Ho.
    destruct Ho as [H|[H|[H|[H|[]]]]]; eauto.
  - intros [c Hc]. exists (Some k). split; [|reflexivity].
    rewrite <- Hc. rewrite !elem_of_cons. destruct c; auto.
Qed.

Lemma insight_cards_elem (i : Insights) (k : Card) :
  k ∈ rendered_cards (Some i) <->
  exists c, category_items c i <> []
            /\ k = {| heading := c;
                      items := imap (fun n item => (n, item))
                                 (take 2 (category_items c i)) |}.
Proof.
  rewrite rendered_cards_elem. split; intros [c Hc]; exists c;
    now apply card_Some.
Qed.

Lemma card_None (c : Category) (i : Insights) :
  card c i = None <-> category_items c i = [].
Proof.
  unfold card. destruct (category_items c i); simpl; split; congruence.
Qed.

(** C3. For an episode whose insights are present, the page shows a
    card for a category exactly when that category's sequence is not
    empty; the card lists its first two items.  The section is rendered
    whatever the four sequences hold (the grid always has its four
    slots, an empty category leaving its slot blank), and with all four
    empty no card is shown. *)
Theorem insight_cards_rendered (episode : Episode) (i : Insights) :
  insights episode = Some i ->
  (forall c,
      (exists k, k ∈ insight_cards episode /\ heading k = c)
      <-> category_items c i <> [])
  /\ (forall k,
        k ∈ insight_cards episode <->
        exists c, category_items c i <> []
                  /\ k = {| heading := c;
                            items := imap (fun n item => (n, item))
                                       (take 2 (category_items c i)) |})
  /\ (exists grid,
        insights_section (insights episode) = Some grid
        /\ length grid = 4%nat
        /\ forall n c,
             [Utilities; Consumers; Startups; Regulatory] !! n = Some c ->
             (grid !! n = Some None <-> category_items c i = []))
  /\ ((forall c, category_items c i = []) -> insight_cards episode = []).
Proof.
  intros Hi. unfold insight_cards. rewrite Hi.
  split; [|split; [apply insight_cards_elem|split]].
  - intros c. split.
    + intros (k & Hk & <-).
      apply insight_cards_elem in Hk as (c & Hne & ->). exact Hne.
    + intros Hne. eexists.
      split; [apply insight_cards_elem; exists c; eauto | reflexivity].
  - exists (insights_grid i). split; [reflexivity|]. split; [reflexivity|].
    intros n c Hn.
    destruct n as [|[|[|[|n]]]]; simpl in Hn; try discriminate;
      injection Hn as <-; rewrite <- card_None; unfold insights_grid;
      cbn [lookup list_lookup]; split; congruence.
  - intros Hall. unfold rendered_cards, insights_section, insights_grid, card.
    now rewrite !Hall.
Qed.

(** Only the consumers category has entries: one card, two of its three
    items. *)
Definition consumers_only : Insights :=
  {| utilities := []; consumers := [lit "a"; lit "b"; lit "c"];
     startups := []; regulatory := [] |}.

Definition sample_episode : Episode :=
  {| id := lit "ep1"; blog_id := lit "blog-1"; title := lit "Load growth";
     script := lit "DOUG: Hello."; insights := Some consumers_only;
     summary := lit "Hello."; duration_estimate := 10; humor_level := 2;
     created_at := lit "2025-01-01" |}.

Example sample_episode_cards :
  insight_cards sample_episode
  = [{| heading := Consumers;
        items := [(0%nat, lit "a"); (1%nat, lit "b")] |}].
Proof. reflexivity. Qed.

Lemma insight_cards_rendered_witness :
  (exists k, k ∈ insight_cards sample_episode /\ heading k = Consumers)
  /\ ~ (exists k, k ∈ insight_cards sample_episode /\ heading k = Startups).
Proof.
  pose proof (proj1 (insight_cards_rendered sample_episode consumers_only
                       eq_refl)) as H.
  split.
  - apply (H Consumers). discriminate.
  - intros Hk. apply (H Startups) in Hk. now apply Hk.
Defined.

End EpisodeDetailPageProps.

(** ** The blog uploader *)

Module BlogUploaderProps.
Import JS JSFacts BlogUploader.

(** [s] ends with [suffix]. *)
Definition has_suffix (suffix s : str) : Prop :=
  exists front, s = front ++ suffix.

Definition markdown_name (file : File) : Prop :=
  has_suffix (lit ".md") (name file) \/ has_suffix (lit ".markdown") (name file).

Lemma wrong_extension_iff (file : File) :
  wrong_extension file = true <-> ~ markdown_name file.
Proof.
  unfold wrong_extension, markdown_name, has_suffix.
  rewrite andb_true_iff, !negb_true_iff.
  rewrite <- !endsWith_iff.
  destruct (endsWith (lit ".md") (name file)),
           (endsWith (lit ".markdown") (name file)); intuition congruence.
Qed.

Lemma wrong_extension_false (file : File) :
  wrong_extension file = false <-> markdown_name file.
Proof.
  unfold wrong_extension, markdown_name, has_suffix.
  rewrite andb_false_iff, !negb_false_iff.
  now rewrite <- !endsWith_iff.
Qed.

Lemma paste_guard (s : State) :
  falsy (trim (title s)) || falsy (trim (content s)) = true
  <-> trim (title s) = [] \/ trim (content s) = [].
Proof. now rewrite orb_true_iff, !falsy_nil. Qed.

(** C6. When the title or the content is empty after trimming,
    [handlePasteSubmit] asks nothing of the outside world and sets the
    validation message; it issues a request, the creation of the blog
    with the title and content as typed, exactly when both are
    non-empty after trimming. *)
Theorem paste_submit_validated (s : State) :
  (trim (title s) = [] \/ trim (content s) = [] ->
   snd (handlePasteSubmit s) = []
   /\ error (fst (handlePasteSubmit s)) = Some paste_message
   /\ isLoading (fst (handlePasteSubmit s)) = isLoading s)
  /\ (forall f, f ∈ snd (handlePasteSubmit s) ->
                trim (title s) <> [] /\ trim (content s) <> []
                /\ f = CreateBlog (title s) (content s))
  /\ (trim (title s) <> [] -> trim (content s) <> [] ->
      snd (handlePasteSubmit s) = [CreateBlog (title s) (content s)]).
Proof.
  unfold handlePasteSubmit.
  destruct (falsy (trim (title s)) || falsy (trim (content s))) eqn:E;
    cbn [fst snd]; pose proof (paste_guard s) as Hempty.
  - apply Hempty in E. split; [|split].
    + intros _. auto.
    + intros f Hf. now apply elem_of_nil in Hf.
    + intros Ht Hc. destruct E; contradiction.
  - assert (Hne : trim (title s) <> [] /\ trim (content s) <> []).
    { split; intros H; (assert (true = false) by
        (rewrite <- E; symmetry; apply Hempty; auto)); discriminate. }
    split; [|split].
    + intros H. apply Hempty in H. congruence.
    + intros f Hf. apply list_elem_of_singleton in Hf. tauto.
    + reflexivity.
Qed.

(** A title of blanks only: nothing is sent. *)
Definition blank_title : State :=
  setContent (lit "# Load growth") (setTitle (lit "   ") initial).

Lemma paste_submit_validated_witness :
  snd (handlePasteSubmit blank_title) = []
  /\ error (fst (handlePasteSubmit blank_title)) = Some paste_message
  /\ isLoading (fst (handlePasteSubmit blank_title)) = isLoading blank_title.
Proof.
  apply (proj1 (paste_submit_validated blank_title)). left. reflexivity.
Defined.

(** What both file handlers do with the file they read, the first one
    of the event's list: a name without a markdown ending stops the
    handler with the message and no call; every call made uploads that
    first file, whose name then ends in [.md] or [.markdown]. *)
Definition checks_first_file
  (handler : list File -> State -> State * list Effect)
  (files : list File) (s : State) : Prop :=
  (forall file others,
      files = file :: others -> ~ markdown_name file ->
      snd (handler files s) = []
      /\ error (fst (handler files s)) = Some extension_message)
  /\ (forall f,
        f ∈ snd (handler files s) ->
        exists file others,
          files = file :: others /\ markdown_name file /\ f = UploadBlog file)
  /\ (forall file others,
        files = file :: others -> markdown_name file ->
        snd (handler files s) = [UploadBlog file]).

Lemma handleDrop_checks (files : list File) (s : State) :
  checks_first_file handleDrop files s.
Proof.
  unfold checks_first_file, handleDrop.
  destruct files as [|file others]; cbn [fst snd].
  - repeat split; try discriminate.
    intros f Hf. now apply elem_of_nil in Hf.
  - destruct (wrong_extension file) eqn:E; cbn [fst snd uploadFile].
    + apply wrong_extension_iff in E. repeat split.
      * intros f Hf. now apply elem_of_nil in Hf.
      * intros file' others' [= <- <-] H. contradiction.
    + apply wrong_extension_false in E. split; [|split].
      * intros file' others' [= <- <-] H. contradiction.
      * intros f Hf. apply list_elem_of_singleton in Hf. eauto.
      * intros file' others' [= <- <-] _. reflexivity.
Qed.

Lemma handleFileSelect_checks (files : list File) (s : State) :
  checks_first_file handleFileSelect files s.
Proof.
  unfold checks_first_file, handleFileSelect.
  destruct files as [|file others]; cbn [fst snd].
  - repeat split; try discriminate.
    intros f Hf. now apply elem_of_nil in Hf.
  - destruct (wrong_extension file) eqn:E; cbn [fst snd uploadFile].
    + apply wrong_extension_iff in E. repeat split.
      * intros f Hf. now apply elem_of_nil in Hf.
      * intros file' others' [= <- <-] H. contradiction.
    + apply wrong_extension_false in E. split; [|split].
      * intros file' others' [= <- <-] H. contradiction.
      * intros f Hf. apply list_elem_of_singleton in Hf. eauto.
      * intros file' others' [= <- <-] _. reflexivity.
Qed.

(** C9, amended.  Both [handleDrop] and [handleFileSelect] read the
    first file of the event only.  When its name does not end with
    [.md] or [.markdown], no call is made and the message "Please
    upload a markdown file (.md)" is set; an upload is requested only
    for a first file that passes the check. *)
Theorem first_file_extension_checked (files : list File) (s : State) :
  checks_first_file handleDrop files s
  /\ checks_first_file handleFileSelect files s.
Proof. split; [apply handleDrop_checks | apply handleFileSelect_checks]. Qed.

(** Dropping [notes.txt]: nothing is uploaded, the message is set. *)
Definition post : File :=
  {| name := lit "post.md"; contents := lit "# Post" |}.

Definition notes : File :=
  {| name := lit "notes.txt"; contents := lit "x" |}.

Lemma first_file_extension_checked_witness :
  snd (handleDrop [notes] initial) = []
  /\ error (fst (handleDrop [notes] initial)) = Some extension_message.
Proof.
  apply (proj1 (proj1 (first_file_extension_checked [notes] initial))
           notes []); [reflexivity|].
  apply wrong_extension_iff. reflexivity.
Defined.

(** C9 as stated fails.  In a drop of [post.md] and [notes.txt]
    together, [notes.txt] is a dropped file whose name has no markdown
    ending, yet the upload API is called (for [post.md]) and no message
    is set. *)
Lemma dropped_files_counterexample :
  notes ∈ [post; notes]
  /\ ~ markdown_name notes
  /\ snd (handleDrop [post; notes] initial) = [UploadBlog post]
  /\ error (fst (handleDrop [post; notes] initial)) = None.
Proof.
  split; [|split; [|split]].
  - apply elem_of_cons. right. apply elem_of_cons. now left.
  - apply wrong_extension_iff. reflexivity.
  - reflexivity.
  - reflexivity.
Qed.

End BlogUploaderProps.

(** ** The audio panel *)

Module AudioPanelProps.
Import JS AudioPanel.

(** The timer the polling effect leaves behind for a given snapshot. *)
Definition expected_interval (j : option AudioJob) : option Z :=
  match j with
  | Some job => if is_terminal (status job) then None else Some 2000%Z
  | None => None
  end.

(** What holds of every state the panel can reach: nothing happens
    before the mount; the timer follows the snapshot; while the first
    status is loading there is no snapshot and nothing else in flight. *)
Definition invariant (s : State) : Prop :=
  (mounted s = false -> s = initial)
  /\ interval s = expected_interval (audioJob s)
  /\ (isLoading s = true ->
      audioJob s = None /\ polls_in_flight s = 0%nat
      /\ generates_in_flight s = 0%nat).

Lemma poll_effect_interval (s : State) :
  interval (poll_effect s) = expected_interval (audioJob (poll_effect s)).
Proof.
  destruct s as [m j l g er iv lf pf gf].
  unfold poll_effect, expected_interval. cbn -[is_terminal].
  destruct j as [job|]; [|reflexivity].
  destruct (is_terminal (status job)) eqn:T; cbn -[is_terminal];
    now rewrite T.
Qed.

Lemma invariant_initial : invariant initial.
Proof. repeat split; reflexivity. Qed.

Lemma clickable_not_loading (episodeId : str) (h : Handler) (s : State) :
  clickable h (render episodeId s) = true -> isLoading s = false.
Proof.
  unfold render. destruct (isLoading s); [discriminate | reflexivity].
Qed.

Lemma poll_effect_eq (s : State) :
  poll_effect s = with_interval (expected_interval (audioJob s)) s.
Proof.
  destruct s as [m j l g er iv lf pf gf].
  unfold poll_effect, expected_interval. cbn -[is_terminal].
  destruct j as [job|]; [|reflexivity].
  now destruct (is_terminal (status job)).
Qed.

Lemma setAudioJob_eq (j : option AudioJob) (s : State) :
  setAudioJob j s = with_interval (expected_interval j) (with_audioJob j s).
Proof. unfold setAudioJob. now rewrite poll_effect_eq. Qed.

Ltac invariant_goal :=
  unfold invariant; rewrite ?setAudioJob_eq;
  cbn -[expected_interval is_terminal];
  split; [|split].

Lemma invariant_step (episodeId : str) (s s' : State) (e : Event)
  (out : list Effect) :
  invariant s -> step episodeId s e = Some (s', out) -> invariant s'.
Proof.
  intros (Hm & Hi & Hl) Hstep.
  destruct e; cbn [step] in Hstep; rewrite ?poll_effect_eq in Hstep.
  - (* Mount *)
    destruct (mounted s) eqn:M; [discriminate|].
    rewrite (Hm eq_refl) in Hstep. injection Hstep as <- <-.
    repeat split; try reflexivity. discriminate.
  - (* Tick *)
    destruct (interval s) as [t|] eqn:I; [|discriminate].
    injection Hstep as <- <-.
    destruct s as [m j l g er iv lf pf gf]; cbn -[expected_interval] in *.
    invariant_goal.
    + intros ->. specialize (Hm eq_refl). inversion Hm; subst. discriminate.
    + congruence.
    + intros ->. destruct (Hl eq_refl) as (-> & _). cbn in Hi.
      discriminate.
  - (* LoadSettled *)
    destruct (loads_in_flight s) as [|n] eqn:L; [discriminate|].
    destruct s as [m j l g er iv lf pf gf]; cbn -[expected_interval] in *.
    subst lf.
    destruct r as [j'|];
      cbn [checkAudioStatus_settled] in Hstep;
      rewrite ?setAudioJob_eq in Hstep;
      cbn -[expected_interval] in Hstep; injection Hstep as <- <-;
      invariant_goal;
      solve [ intros ->; specialize (Hm eq_refl); discriminate
            | reflexivity | exact Hi | discriminate ].
  - (* PollSettled *)
    destruct (polls_in_flight s) as [|n] eqn:P; [discriminate|].
    destruct s as [m j l g er iv lf pf gf]; cbn -[expected_interval] in *.
    subst pf.
    assert (l = false) as ->.
    { destruct l; [|reflexivity]. destruct (Hl eq_refl) as (_ & ? & _).
      discriminate. }
    destruct r as [j'|];
      cbn [checkAudioStatus_settled] in Hstep;
      rewrite ?setAudioJob_eq in Hstep;
      cbn -[expected_interval has_status] in Hstep;
      injection Hstep as <- <-;
      try destruct (has_status complete j' || has_status failed j');
      invariant_goal;
      solve [ intros ->; specialize (Hm eq_refl); discriminate
            | reflexivity | exact Hi | discriminate ].
  - (* ClickGenerate *)
    destruct (clickable HandleGenerate (render episodeId s)) eqn:C;
      [|discriminate].
    apply clickable_not_loading in C.
    destruct s as [m j l g er iv lf pf gf]; cbn -[expected_interval] in *.
    subst l.
    injection Hstep as <- <-. invariant_goal.
    + intros ->. specialize (Hm eq_refl). discriminate Hm.
    + exact Hi.
    + discriminate.
  - (* GenerateSettled *)
    destruct (generates_in_flight s) as [|n] eqn:G; [discriminate|].
    destruct s as [m j l g er iv lf pf gf]; cbn -[expected_interval] in *.
    subst gf.
    assert (l = false) as ->.
    { destruct l; [|reflexivity]. destruct (Hl eq_refl) as (_ & _ & ?).
      discriminate. }
    destruct r as [job|msg];
      cbn [handleGenerate_settled] in Hstep;
      rewrite ?setAudioJob_eq in Hstep;
      cbn -[expected_interval] in Hstep; injection Hstep as <- <-;
      invariant_goal;
      solve [ intros ->; specialize (Hm eq_refl); discriminate
            | reflexivity | exact Hi | discriminate ].
  - (* ClickDownload *)
    destruct (clickable HandleDownload (render episodeId s)); [|discriminate].
    injection Hstep as <- <-. exact (conj Hm (conj Hi Hl)).
Qed.

Lemma reachable_invariant (episodeId : str) (s : State) :
  reachable episodeId s -> invariant s.
Proof.
  induction 1 as [|s e s' out _ IH Hstep];
    [apply invariant_initial | eapply invariant_step; eauto].
Qed.

Lemma reachable_run (episodeId : str) (s s' : State) (es : list Event)
  (out : list Effect) :
  reachable episodeId s -> run episodeId s es = Some (s', out) ->
  reachable episodeId s'.
Proof.
  revert s out. induction es as [|e es IH]; intros s out Hr Hrun; cbn in Hrun.
  - now injection Hrun as <- _.
  - destruct (step episodeId s e) as [[s1 o1]|] eqn:E; [|discriminate].
    destruct (run episodeId s1 es) as [[s2 o2]|] eqn:R; [|discriminate].
    injection Hrun as <- _. eapply IH; [|exact R].
    eapply reachable_step; eauto.
Qed.

(** *** The player *)

Definition completed_view (v : View) : option CompletedView :=
  match v with
  | PanelView p => completed_section p
  | LoadingView => None
  end.


(** A button bound to [h] is on screen, enabled or not. *)
Definition shows_button (h : Handler) (v : View) : bool :=
  existsb (fun b => handler_eqb (onClick b) h) (buttons v).

Lemma reachable_job_loaded (episodeId : str) (s : State) (j : AudioJob) :
  reachable episodeId s -> audioJob s = Some j -> isLoading s = false.
Proof.
  intros Hr Hj. destruct (reachable_invariant _ _ Hr) as (_ & _ & Hl).
  destruct (isLoading s); [|reflexivity].
  destruct (Hl eq_refl) as (E & _). congruence.
Qed.

Lemma status_eqb_eq (a b : Status) : status_eqb a b = true <-> a = b.
Proof. destruct a, b; cbn; split; congruence. Qed.

(** The completed section, by the snapshot held. *)
Lemma render_completed (episodeId : str) (s : State) :
  reachable episodeId s ->
  match audioJob s with
  | Some j =>
      if status_eqb (status j) complete
      then completed_view (render episodeId s)
           = Some {| duration := guard_num (duration_seconds j);
                     player_source := episodeId;
                     download := {| onClick := HandleDownload;
                                    disabled := false |} |}
           /\ shows_button HandleDownload (render episodeId s) = true
      else completed_view (render episodeId s) = None
           /\ shows_button HandleDownload (render episodeId s) = false
  | None =>
      completed_view (render episodeId s) = None
      /\ shows_button HandleDownload (render episodeId s) = false
  end.
Proof.
  intros Hr. destruct (audioJob s) as [j|] eqn:Hj.
  - pose proof (reachable_job_loaded _ _ _ Hr Hj) as Hl.
    unfold completed_view, shows_button, render. rewrite Hl, Hj.
    destruct j as [ep st pr msg sc ds op].
    destruct st; cbn; split; reflexivity.
  - unfold completed_view, shows_button, render. rewrite Hj.
    destruct (isLoading s); cbn; split; reflexivity.
Qed.

(** C7. In every state the panel can reach, the audio player and the
    download button are rendered exactly when the snapshot held has
    status [complete]; with a pending, generating, processing or failed
    job neither is on screen.  The player and the download both point
    at the episode's audio. *)
Theorem player_iff_complete (episodeId : str) (s : State) :
  reachable episodeId s ->
  (is_Some (completed_view (render episodeId s))
   <-> has_status complete (audioJob s) = true)
  /\ (shows_button HandleDownload (render episodeId s) = true
      <-> has_status complete (audioJob s) = true)
  /\ (forall c, completed_view (render episodeId s) = Some c ->
                player_source c = episodeId
                /\ download c = {| onClick := HandleDownload;
                                   disabled := false |}
                /\ snd (handleDownload episodeId s) = [WindowOpen episodeId])
  /\ (forall j, audioJob s = Some j ->
                status j = pending \/ status j = generating
                \/ status j = processing \/ status j = failed ->
                completed_view (render episodeId s) = None
                /\ shows_button HandleDownload (render episodeId s) = false).
Proof.
  intros Hr. pose proof (render_completed _ _ Hr) as H.
  unfold has_status. destruct (audioJob s) as [j|] eqn:Hj.
  - destruct (status_eqb (status j) complete) eqn:E; destruct H as [Hc Hb];
      rewrite Hc, Hb; (split; [|split; [|split]]).
    + split; [reflexivity | intros _; eexists; reflexivity].
    + tauto.
    + intros c [= <-]. cbn. auto.
    + intros j' [= <-] Hst. apply status_eqb_eq in E.
      destruct Hst as [Hst|[Hst|[Hst|Hst]]]; congruence.
    + split; [intros [c Hc']; discriminate | discriminate].
    + split; discriminate.
    + discriminate.
    + auto.
  - destruct H as [Hc Hb]. rewrite Hc, Hb. (split; [|split; [|split]]).
    + split; [intros [c Hc']; discriminate | discriminate].
    + split; discriminate.
    + discriminate.
    + discriminate.
Qed.

Definition job_with (st : Status) (msg : string) : AudioJob :=
  {| episode_id := lit "ep1"; status := st; progress := 40;
     message := lit msg; segment_count := Some 12%Z;
     duration_seconds := None; output_path := None |}.

(** The state after a run from the initial state. *)
Definition state_after (episodeId : str) (es : list Event) : State :=
  match run episodeId initial es with
  | Some (s, _) => s
  | None => initial
  end.

Lemma state_after_reachable (episodeId : str) (es : list Event) :
  reachable episodeId (state_after episodeId es).
Proof.
  unfold state_after.
  destruct (run episodeId initial es) as [[s out]|] eqn:R.
  - eapply reachable_run; [apply reachable_initial | exact R].
  - apply reachable_initial.
Qed.

(** The first status load answers with a failed job. *)
Definition load_failed : list Event :=
  [Mount; LoadSettled (StatusOk (Some (job_with failed "Synthesis failed")))].

(** With a failed job on screen there is no player and no download. *)
Lemma player_iff_complete_witness :
  completed_view (render (lit "ep1") (state_after (lit "ep1") load_failed))
  = None
  /\ shows_button HandleDownload
       (render (lit "ep1") (state_after (lit "ep1") load_failed)) = false.
Proof.
  apply (proj2 (proj2 (proj2
           (player_iff_complete (lit "ep1") _
              (state_after_reachable (lit "ep1") load_failed))))
           (job_with failed "Synthesis failed")).
  - reflexivity.
  - right; right; right; reflexivity.
Defined.

(** *** Failure and retry *)





(** *** Polling *)

Definition holds_terminal (s : State) : Prop :=
  exists j, audioJob s = Some j /\ is_terminal (status j) = true.

Definition holds_running (s : State) : Prop :=
  exists j, audioJob s = Some j /\ is_terminal (status j) = false.

(** No promise is waiting to settle. *)
Definition nothing_in_flight (s : State) : Prop :=
  loads_in_flight s = 0%nat /\ polls_in_flight s = 0%nat
  /\ generates_in_flight s = 0%nat.

Lemma interval_running (s : State) :
  invariant s -> (interval s = Some 2000%Z <-> holds_running s).
Proof.
  intros (_ & Hi & _). rewrite Hi. unfold expected_interval, holds_running.
  destruct (audioJob s) as [j|].
  - destruct (is_terminal (status j)) eqn:T; split.
    + discriminate.
    + intros (j' & [= <-] & H). congruence.
    + eauto.
    + reflexivity.
  - split; [discriminate | intros (j & H & _); discriminate].
Qed.

Lemma interval_terminal (s : State) :
  invariant s -> holds_terminal s -> interval s = None.
Proof.
  intros (_ & Hi & _) (j & Hj & T). rewrite Hi, Hj. cbn -[is_terminal].
  now rewrite T.
Qed.

(** With a terminal snapshot and nothing in flight, only the user can
    make the panel move: a retry, or a download that changes nothing. *)
Lemma quiet_step (episodeId : str) (s s' : State) (e : Event)
  (out : list Effect) :
  invariant s -> holds_terminal s -> nothing_in_flight s ->
  step episodeId s e = Some (s', out) ->
  e = ClickGenerate
  \/ (e = ClickDownload /\ s' = s /\ out = [WindowOpen episodeId]).
Proof.
  intros Hinv Ht (Hl & Hp & Hg) Hstep.
  pose proof (interval_terminal _ Hinv Ht) as Hi.
  destruct Hinv as (Hm & _ & _). destruct Ht as (j & Hj & _).
  destruct e; cbn [step] in Hstep.
  - destruct (mounted s) eqn:M; [discriminate|].
    rewrite (Hm eq_refl) in Hj. discriminate.
  - rewrite Hi in Hstep. discriminate.
  - rewrite Hl in Hstep. discriminate.
  - rewrite Hp in Hstep. discriminate.
  - now left.
  - rewrite Hg in Hstep. discriminate.
  - right. destruct (clickable HandleDownload (render episodeId s));
      [|discriminate].
    injection Hstep as <- <-. auto.
Qed.

(** A status request goes out at the mount or on a tick of the timer,
    never otherwise. *)
Lemma status_request_origin (episodeId : str) (s s' : State) (e : Event)
  (out : list Effect) :
  step episodeId s e = Some (s', out) ->
  GetEpisodeAudioStatus episodeId ∈ out ->
  e = Mount \/ e = Tick.
Proof.
  intros Hstep Hin. destruct e; auto; exfalso; cbn [step] in Hstep.
  - destruct (loads_in_flight s); [discriminate|].
    destruct (checkAudioStatus_settled r _) as [s1 o1].
    injection Hstep as <- <-. now apply elem_of_nil in Hin.
  - destruct (polls_in_flight s); [discriminate|].
    destruct (checkAudioStatus_settled r _) as [s1 o1].
    injection Hstep as <- <-. now apply elem_of_nil in Hin.
  - destruct (clickable HandleGenerate (render episodeId s)); [|discriminate].
    injection Hstep as <- <-. apply list_elem_of_singleton in Hin.
    discriminate.
  - destruct (generates_in_flight s); [discriminate|].
    injection Hstep as <- <-. now apply elem_of_nil in Hin.
  - destruct (clickable HandleDownload (render episodeId s)); [|discriminate].
    injection Hstep as <- <-. apply list_elem_of_singleton in Hin.
    discriminate.
Qed.

(** C4, amended.  In every state the panel can reach, the poll timer
    is live, with a period of 2000 ms, exactly while the snapshot held
    is non-terminal; after the mount a status poll goes out only on a
    tick of that timer, hence only then.  When
    the snapshot held is [complete] or [failed] and no earlier request
    is still in flight, the panel does nothing by itself: whatever
    happens without a click on generate or retry issues no request and
    leaves the state, terminal snapshot included, as it is. *)
Theorem polling_follows_snapshot (episodeId : str) (s : State) :
  reachable episodeId s ->
  (interval s = Some 2000%Z \/ interval s = None)
  /\ (interval s = Some 2000%Z <-> holds_running s)
  /\ (forall s' out,
        step episodeId s Tick = Some (s', out) ->
        holds_running s /\ out = [GetEpisodeAudioStatus episodeId])
  /\ (forall e s' out,
        step episodeId s e = Some (s', out) ->
        GetEpisodeAudioStatus episodeId ∈ out ->
        (e = Mount /\ s = initial) \/ (e = Tick /\ holds_running s))
  /\ (holds_terminal s -> step episodeId s Tick = None)
  /\ (holds_terminal s -> nothing_in_flight s ->
      forall es s' out,
        run episodeId s es = Some (s', out) ->
        ClickGenerate ∉ es ->
        s' = s
        /\ Forall (fun f => is_status_request f = false) out
        /\ Forall (fun e => automatic e = false) es).
Proof.
  intros Hr. pose proof (reachable_invariant _ _ Hr) as Hinv.
  pose proof (interval_running _ Hinv) as Hrun.
  assert (Htick : forall s' out,
             step episodeId s Tick = Some (s', out) ->
             holds_running s /\ out = [GetEpisodeAudioStatus episodeId]).
  { intros s' out Hstep. cbn [step] in Hstep.
    destruct (interval s) as [t|] eqn:I; [|discriminate].
    injection Hstep as <- <-. split; [|reflexivity].
    apply Hrun. destruct Hinv as (_ & Hi & _). rewrite Hi in I.
    unfold expected_interval in I.
    destruct (audioJob s) as [j|]; [|discriminate].
    destruct (is_terminal (status j)); [discriminate | congruence]. }
  split; [|split; [exact Hrun|split; [exact Htick|split; [|split]]]].
  - destruct Hinv as (_ & Hi & _). rewrite Hi. unfold expected_interval.
    destruct (audioJob s) as [j|]; [|now right].
    destruct (is_terminal (status j)); auto.
  - intros e s' out Hstep Hin.
    destruct (status_request_origin _ _ _ _ _ Hstep Hin) as [-> | ->].
    + left. split; [reflexivity|]. destruct Hinv as (Hm & _ & _).
      apply Hm. cbn [step] in Hstep.
      destruct (mounted s); [discriminate | reflexivity].
    + right. split; [reflexivity|]. exact (proj1 (Htick _ _ Hstep)).
  - intros Ht. cbn [step]. now rewrite (interval_terminal _ Hinv Ht).
  - intros Ht Hq es. induction es as [|e es IH]; intros s' out Hes Hnot.
    + cbn in Hes. injection Hes as <- <-. auto.
    + cbn in Hes.
      destruct (step episodeId s e) as [[s1 o1]|] eqn:E; [|discriminate].
      destruct (run episodeId s1 es) as [[s2 o2]|] eqn:R; [|discriminate].
      injection Hes as <- <-.
      destruct (quiet_step _ _ _ _ _ Hinv Ht Hq E) as [->|(-> & -> & ->)].
      * exfalso. apply Hnot. apply elem_of_cons. now left.
      * destruct (IH _ _ R) as (-> & Hout & Hev).
        { intros Hin. apply Hnot. apply elem_of_cons. now right. }
        split; [reflexivity|]. split; constructor; auto.
Qed.

(** The first status load answers with a complete job, then the user
    downloads twice: no request goes out. *)
Definition load_complete : list Event :=
  [Mount; LoadSettled (StatusOk (Some (job_with complete "Done")))].

Lemma polling_follows_snapshot_witness :
  step (lit "ep1") (state_after (lit "ep1") load_complete) Tick = None
  /\ Forall (fun f => is_status_request f = false)
       [WindowOpen (lit "ep1"); WindowOpen (lit "ep1")].
Proof.
  pose proof (polling_follows_snapshot (lit "ep1")
                (state_after (lit "ep1") load_complete)
                (state_after_reachable (lit "ep1") load_complete))
    as (_ & _ & _ & _ & Htick & Hquiet).
  assert (Ht : holds_terminal (state_after (lit "ep1") load_complete)).
  { exists (job_with complete "Done"). split; vm_compute; reflexivity. }
  assert (Hq : nothing_in_flight (state_after (lit "ep1") load_complete)).
  { split; [|split]; vm_compute; reflexivity. }
  split; [exact (Htick Ht)|].
  destruct (Hquiet Ht Hq [ClickDownload; ClickDownload]
              (state_after (lit "ep1") load_complete)
              [WindowOpen (lit "ep1"); WindowOpen (lit "ep1")])
    as (_ & Hout & _).
  - vm_compute. reflexivity.
  - intros Hin. apply elem_of_cons in Hin as [Hin|Hin]; [discriminate|].
    apply elem_of_cons in Hin as [Hin|Hin]; [discriminate|].
    now apply elem_of_nil in Hin.
  - exact Hout.
Defined.

(** C4 as stated fails.  Two polls are in flight; the later one is
    answered first, with [complete], and the timer stops; then the
    earlier one is answered with [generating].  The panel takes the
    stale answer as its snapshot, restarts the timer, and the next tick
    issues a status poll: an automatic poll after a terminal snapshot
    was observed, with no click in the whole run. *)
Definition until_complete : list Event :=
  [Mount; LoadSettled (StatusOk (Some (job_with generating "Voices")));
   Tick; Tick;
   PollSettled (StatusOk (Some (job_with complete "Done")))].

Definition stale_then_tick : list Event :=
  [PollSettled (StatusOk (Some (job_with processing "Mixing"))); Tick].

Lemma stale_answer_counterexample :
  run (lit "ep1") initial until_complete
  = Some (state_after (lit "ep1") until_complete,
          [GetEpisodeAudioStatus (lit "ep1");
           GetEpisodeAudioStatus (lit "ep1");
           GetEpisodeAudioStatus (lit "ep1")])
  /\ has_status complete (audioJob (state_after (lit "ep1") until_complete))
     = true
  /\ interval (state_after (lit "ep1") until_complete) = None
  /\ forallb automatic (until_complete ++ stale_then_tick) = true
  /\ run (lit "ep1") (state_after (lit "ep1") until_complete) stale_then_tick
     = Some (state_after (lit "ep1") (until_complete ++ stale_then_tick),
             [GetEpisodeAudioStatus (lit "ep1")])
  /\ has_status processing
       (audioJob (state_after (lit "ep1")
                    (until_complete ++ stale_then_tick))) = true.
Proof.
  split; [vm_compute; reflexivity|].
  split; [vm_compute; reflexivity|].
  split; [vm_compute; reflexivity|].
  split; [vm_compute; reflexivity|].
  split; vm_compute; reflexivity.
Qed.

End AudioPanelProps.

(** ** The generation wizard *)

Module GenerationWizardProps.
Import JS JSFacts GenerationWizard.

Lemma includes_iff (a : str) (l : list str) : includes a l = true <-> a ∈ l.
Proof.
  unfold includes. rewrite existsb_exists, list_elem_of_In. split.
  - intros (x & Hin & Heq). apply str_eqb_eq in Heq. now subst.
  - intros Hin. exists a. split; [exact Hin | apply str_eqb_refl].
Qed.

Lemma includes_false (a : str) (l : list str) :
  includes a l = false <-> a ∉ l.
Proof.
  rewrite <- includes_iff. destruct (includes a l); split; congruence.
Qed.

(** [l.filter((x) => x !== a)] keeps exactly the entries other than [a]. *)
Lemma elem_of_remove (a x : str) (l : list str) :
  x ∈ List.filter (fun y => negb (str_eqb y a)) l <-> x ∈ l /\ x <> a.
Proof.
  rewrite !list_elem_of_In, filter_In, negb_true_iff, str_eqb_neq.
  reflexivity.
Qed.

Lemma remove_absent (a : str) (l : list str) :
  a ∉ l -> List.filter (fun y => negb (str_eqb y a)) l = l.
Proof.
  intros Hnot. induction l as [|x l IH]; simpl; [reflexivity|].
  assert (x <> a) by (intros ->; apply Hnot; apply elem_of_cons; now left).
  apply str_eqb_neq in H. rewrite H. simpl. f_equal. apply IH.
  intros Hin. apply Hnot. apply elem_of_cons. now right.
Qed.

Lemma remove_app (a : str) (l : list str) :
  List.filter (fun y => negb (str_eqb y a)) (l ++ [a])
  = List.filter (fun y => negb (str_eqb y a)) l.
Proof.
  rewrite List.filter_app. simpl. rewrite str_eqb_refl. simpl.
  apply app_nil_r.
Qed.

Lemma toggle_absent (a : str) (g : GenerationSettings) :
  a ∉ focus_areas g ->
  focus_areas (toggleFocusArea a g) = focus_areas g ++ [a].
Proof.
  intros H. apply includes_false in H. unfold toggleFocusArea. cbn.
  now rewrite H.
Qed.

Lemma toggle_present (a : str) (g : GenerationSettings) :
  a ∈ focus_areas g ->
  focus_areas (toggleFocusArea a g)
  = List.filter (fun y => negb (str_eqb y a)) (focus_areas g).
Proof.
  intros H. apply includes_iff in H. unfold toggleFocusArea. cbn.
  now rewrite H.
Qed.

(** C10. Toggling a focus area twice gives back a list with the same
    members.  One toggle appends the area when it was absent, and when
    it was present removes every occurrence of it and keeps the other
    entries; either way the duration, the humor level and the custom
    talking points are untouched. *)
Theorem toggle_focus_area (a : str) (g : GenerationSettings) :
  (forall x, x ∈ focus_areas (toggleFocusArea a (toggleFocusArea a g))
             <-> x ∈ focus_areas g)
  /\ ((a ∈ focus_areas (toggleFocusArea a g)) <-> (a ∉ focus_areas g))
  /\ (a ∉ focus_areas g ->
      focus_areas (toggleFocusArea a g) = focus_areas g ++ [a])
  /\ (a ∈ focus_areas g ->
      (a ∉ focus_areas (toggleFocusArea a g))
      /\ focus_areas (toggleFocusArea a g)
         = List.filter (fun y => negb (str_eqb y a)) (focus_areas g)
      /\ forall x, x <> a ->
                   (x ∈ focus_areas (toggleFocusArea a g)
                    <-> x ∈ focus_areas g))
  /\ duration (toggleFocusArea a g) = duration g
  /\ humor_level (toggleFocusArea a g) = humor_level g
  /\ custom_talking_points (toggleFocusArea a g) = custom_talking_points g.
Proof.
  assert (Hgone : a ∈ focus_areas g -> a ∉ focus_areas (toggleFocusArea a g)).
  { intros Hin. rewrite (toggle_present _ _ Hin), elem_of_remove. tauto. }
  split; [|split; [|split; [|split]]].
  - intros x. destruct (decide (a ∈ focus_areas g)) as [Hin|Hout].
    + rewrite (toggle_absent a (toggleFocusArea a g) (Hgone Hin)).
      rewrite elem_of_app, (toggle_present _ _ Hin), elem_of_remove,
        list_elem_of_singleton.
      split; [intros [[H _]| ->]; assumption|].
      intros H. destruct (decide (x = a)); auto.
    + assert (Hin : a ∈ focus_areas (toggleFocusArea a g)).
      { rewrite (toggle_absent _ _ Hout), elem_of_app,
          list_elem_of_singleton. now right. }
      rewrite (toggle_present _ _ Hin), (toggle_absent _ _ Hout),
        remove_app, (remove_absent _ _ Hout). reflexivity.
  - split.
    + intros Hin Hwas. exact (Hgone Hwas Hin).
    + intros Hout. rewrite (toggle_absent _ _ Hout), elem_of_app,
        list_elem_of_singleton. now right.
  - apply toggle_absent.
  - intros Hin. split; [exact (Hgone Hin)|]. split; [now apply toggle_present|].
    intros x Hx. rewrite (toggle_present _ _ Hin), elem_of_remove. tauto.
  - repeat split.
Qed.

(** Toggling "startups" on a selection that has it twice removes both. *)
Definition startups_twice : GenerationSettings :=
  {| duration := lit "short"; humor_level := Num 2;
     focus_areas := [lit "startups"; lit "consumers"; lit "startups"];
     custom_talking_points := [] |}.

Lemma toggle_focus_area_witness :
  (lit "startups"
   ∉ focus_areas (toggleFocusArea (lit "startups") startups_twice))
  /\ focus_areas (toggleFocusArea (lit "startups") startups_twice)
     = [lit "consumers"].
Proof.
  destruct (proj1 (proj2 (proj2 (proj2
             (toggle_focus_area (lit "startups") startups_twice)))))
    as (Hgone & Heq & _).
  - apply elem_of_cons. now left.
  - split; [exact Hgone|]. rewrite Heq. reflexivity.
Defined.

(** *** The settings invariant *)

Example parseInt_samples :
  parseInt (lit "3") = Num 3
  /\ parseInt (lit "  -42px") = Num (-42)
  /\ parseInt (lit "0x1F") = Num 31
  /\ parseInt (lit "") = NaN
  /\ parseInt (lit "abc") = NaN.
Proof. repeat split. Qed.

Lemma slider_value_parsed (value : str) :
  value ∈ slider_values -> humor_ok (parseInt value).
Proof.
  unfold slider_values. rewrite !elem_of_cons, elem_of_nil.
  intros [->|[->|[->|[->|[->|[]]]]]]; vm_compute; split; discriminate.
Qed.

Lemma focus_option_tag (area : str) :
  area ∈ List.map id focusOptions <-> area ∈ focus_tags.
Proof. reflexivity. Qed.

Lemma selectDuration_ok (d : str) (g : GenerationSettings) :
  settings_ok g -> d ∈ durations -> settings_ok (selectDuration d g).
Proof. intros (_ & Hh & Hf) Hd. now repeat split. Qed.

Lemma changeHumor_ok (value : str) (g : GenerationSettings) :
  settings_ok g -> value ∈ slider_values -> settings_ok (changeHumor value g).
Proof.
  intros (Hd & _ & Hf) Hv. split; [exact Hd|].
  split; [now apply slider_value_parsed | exact Hf].
Qed.

Lemma toggleFocusArea_ok (area : str) (g : GenerationSettings) :
  settings_ok g -> area ∈ List.map id focusOptions ->
  settings_ok (toggleFocusArea area g).
Proof.
  intros (Hd & Hh & Hf) Ha. split; [exact Hd|]. split; [exact Hh|].
  intros x Hx. destruct (decide (area ∈ focus_areas g)) as [Hin|Hout].
  - rewrite (toggle_present _ _ Hin), elem_of_remove in Hx.
    apply Hf. tauto.
  - rewrite (toggle_absent _ _ Hout), elem_of_app,
      list_elem_of_singleton in Hx.
    destruct Hx as [Hx| ->]; [now apply Hf | now apply focus_option_tag].
Qed.

Lemma initial_settings_ok : settings_ok initial_settings.
Proof.
  split; [|split].
  - apply elem_of_cons. right. apply elem_of_cons. now left.
  - cbn. lia.
  - intros x Hx. now apply elem_of_nil in Hx.
Qed.

Lemma step_settings_ok (blog_id : str) (s s' : State) (e : Event)
  (out : list Effect) :
  settings_ok (settings s) -> step blog_id s e = Some (s', out) ->
  settings_ok (settings s')
  /\ forall b g, GenerateEpisode b g ∈ out -> settings_ok g.
Proof.
  intros Hok Hstep.
  assert (Hnone : forall b g, GenerateEpisode b g ∈ [] -> settings_ok g).
  { intros b g H. now apply elem_of_nil in H. }
  destruct e; cbn [step] in Hstep.
  - destruct (negb (isGenerating s) && includes duration0 durations) eqn:E;
      [|discriminate].
    injection Hstep as <- <-. split; [|exact Hnone].
    apply andb_true_iff in E as [_ E]. apply includes_iff in E.
    now apply selectDuration_ok.
  - destruct (negb (isGenerating s) && includes value slider_values) eqn:E;
      [|discriminate].
    injection Hstep as <- <-. split; [|exact Hnone].
    apply andb_true_iff in E as [_ E]. apply includes_iff in E.
    now apply changeHumor_ok.
  - destruct (negb (isGenerating s)
              && includes area (List.map id focusOptions)) eqn:E;
      [|discriminate].
    injection Hstep as <- <-. split; [|exact Hnone].
    apply andb_true_iff in E as [_ E]. apply includes_iff in E.
    now apply toggleFocusArea_ok.
  - destruct (isGenerating s); [discriminate|].
    injection Hstep as <- <-. split; [exact Hok|].
    intros b g Hin. apply list_elem_of_singleton in Hin.
    now injection Hin as -> ->.
  - destruct (isGenerating s); [|discriminate].
    destruct r; injection Hstep as <- <-; (split; [exact Hok|]);
      intros b g Hin;
      [apply list_elem_of_singleton in Hin; discriminate
      | now apply elem_of_nil in Hin].
  - unfold progressTick in Hstep.
    destruct (timers s !! i) as [stepIndex|]; [|discriminate].
    injection Hstep as <- <-. split; [|exact Hnone].
    match goal with
    | |- context [if ?c then _ else _] => destruct c
    end; exact Hok.
  - destruct (isGenerating s); [discriminate|].
    injection Hstep as <- <-. split; [exact Hok|].
    intros b g Hin. apply list_elem_of_singleton in Hin. discriminate.
Qed.

Lemma run_settings_ok (blog_id : str) (es : list Event) (s s' : State)
  (out : list Effect) :
  settings_ok (settings s) -> run blog_id s es = Some (s', out) ->
  settings_ok (settings s')
  /\ forall b g, GenerateEpisode b g ∈ out -> settings_ok g.
Proof.
  revert s out. induction es as [|e es IH]; intros s out Hok Hrun;
    cbn in Hrun.
  - injection Hrun as <- <-. split; [exact Hok|].
    intros b g H. now apply elem_of_nil in H.
  - destruct (step blog_id s e) as [[s1 o1]|] eqn:E; [|discriminate].
    destruct (run blog_id s1 es) as [[s2 o2]|] eqn:R; [|discriminate].
    injection Hrun as <- <-.
    destruct (step_settings_ok _ _ _ _ _ Hok E) as [Hok1 Hout1].
    destruct (IH _ _ Hok1 R) as [Hok2 Hout2].
    split; [exact Hok2|]. intros b g Hin.
    apply elem_of_app in Hin as [Hin|Hin]; eauto.
Qed.

(** C8. The wizard starts from medium duration, humor 3, no focus area
    and no custom talking point, and that value satisfies the invariant:
    the duration is short, medium or long, the humor level is an integer
    from 1 to 5, every focus area is one of utilities, consumers,
    startups, regulatory.  Selecting a duration, moving the humor slider
    and toggling a focus area each preserve the invariant, so it holds of
    the settings after any run of the wizard and of every settings value
    the wizard sends for generation.  The minutes shown are 10 for
    short, 20 for medium and 30 for long. *)
Theorem wizard_settings_invariant :
  (initial_settings
   = {| duration := lit "medium"; humor_level := Num 3;
        focus_areas := []; custom_talking_points := [] |}
   /\ settings_ok initial_settings)
  /\ (minutes (lit "short") = 10%Z /\ minutes (lit "medium") = 20%Z
      /\ minutes (lit "long") = 30%Z)
  /\ (forall g, settings_ok g ->
        (forall d, d ∈ durations -> settings_ok (selectDuration d g))
        /\ (forall value, value ∈ slider_values ->
                          settings_ok (changeHumor value g))
        /\ (forall area, area ∈ List.map id focusOptions ->
                         settings_ok (toggleFocusArea area g)))
  /\ (forall blog_id es s out,
        run blog_id initial es = Some (s, out) ->
        settings_ok (settings s)
        /\ forall b g, GenerateEpisode b g ∈ out -> settings_ok g).
Proof.
  split; [split; [reflexivity | apply initial_settings_ok]|].
  split; [repeat split|]. split.
  - intros g Hok. split; [|split]; intros x Hx.
    + now apply selectDuration_ok.
    + now apply changeHumor_ok.
    + now apply toggleFocusArea_ok.
  - intros blog_id es s out Hrun.
    exact (run_settings_ok blog_id es initial s out initial_settings_ok Hrun).
Qed.

(** Long, humor 5, regulatory, then generate: the settings sent are in
    range. *)
Definition long_and_funny : list Event :=
  [SelectDuration (lit "long"); ChangeHumor (lit "5");
   ToggleFocusArea (lit "regulatory"); ClickGenerate].

Definition sent_settings : GenerationSettings :=
  {| duration := lit "long"; humor_level := Num 5;
     focus_areas := [lit "regulatory"]; custom_talking_points := [] |}.

Lemma wizard_settings_invariant_witness : settings_ok sent_settings.
Proof.
  destruct (proj2 (proj2 (proj2 wizard_settings_invariant))
              (lit "blog-1") long_and_funny
              {| settings := sent_settings; isGenerating := true;
                 progress := Some (lit "Analyzing blog content...");
                 error := None; timers := [0%nat] |}
              [GenerateEpisode (lit "blog-1") sent_settings])
    as [_ Hsent].
  - vm_compute. reflexivity.
  - apply (Hsent (lit "blog-1")). apply elem_of_cons. now left.
Defined.

End GenerationWizardProps.

(** * Further properties *)

(** ** The script viewer: every line kind *)

Module ScriptViewerMore.
Import JS JSFacts JSArray ScriptViewer ScriptViewerProps.

Local Open Scope char_scope.

(** *** Headings *)

Definition hashes (n : nat) : str := repeat (ch "#") n.

(** A greedy star whose continuation accepts what follows the run stops
    at the end of the run. *)
Lemma star_exec_greedy (cls : N -> bool) (k : str -> option str)
  (t rest : str) :
  forallb cls t = true -> head_is cls rest = false -> is_Some (k rest) ->
  star_exec cls k (t ++ rest) = k rest.
Proof.
  intros Ht Hr [r Hk]. induction t as [|x t IH]; simpl in *.
  - destruct rest as [|c s]; simpl in *; [reflexivity|]. now rewrite Hr.
  - apply andb_true_iff in Ht as [-> Ht]. rewrite (IH Ht), Hk. reflexivity.
Qed.

Lemma forallb_repeat (cls : N -> bool) (c : N) (n : nat) :
  cls c = true -> forallb cls (repeat c n) = true.
Proof. intros H. induction n; simpl; [reflexivity | now rewrite H]. Qed.

Lemma heading_level_run (m : nat) (rest : str) :
  head_is (is_char "#") rest = false ->
  heading_level (hashes (S m) ++ rest) = S m.
Proof.
  intros Hrest.
  assert (Hrun : forallb (is_char "#") (hashes m) = true)
    by now apply forallb_repeat.
  unfold heading_level, match_length, exec.
  change (exec_atoms (atoms re_hashes) (finish (anchored_end re_hashes))
            (hashes (S m) ++ rest))
    with (star_exec (is_char "#") (finish false) (hashes m ++ rest)).
  rewrite (star_exec_greedy _ _ _ _ Hrun Hrest) by (eexists; reflexivity).
  cbn [finish].
  assert (E : (length (hashes (S m) ++ rest) - length rest)%nat = S m).
  { rewrite length_app. unfold hashes. rewrite repeat_length. lia. }
  now rewrite E.
Qed.

Lemma heading_text_run (m : nat) (rest : str) :
  head_is (is_char "#") rest = false ->
  replace_empty re_heading (hashes (S m) ++ rest) = trimStart rest.
Proof.
  intros Hrest.
  assert (Hrun : forallb (is_char "#") (hashes m) = true)
    by now apply forallb_repeat.
  unfold replace_empty, exec.
  change (exec_atoms (atoms re_heading) (finish (anchored_end re_heading))
            (hashes (S m) ++ rest))
    with (star_exec (is_char "#") (star_exec is_space Some)
            (hashes m ++ rest)).
  rewrite (star_exec_greedy _ _ _ _ Hrun Hrest)
    by (rewrite star_exec_space_final; eexists; reflexivity).
  now rewrite star_exec_space_final.
Qed.

(** A line of [n] hashes followed by text that does not start with a
    hash is rendered as a heading of level [n]: the class is that of
    levels 1, 2, 3 or the common one above, and the text is what
    follows the hashes and the white space after them. *)
Theorem heading_rendered (n : nat) (rest : str) :
  (0 < n)%nat -> head_is (is_char "#") rest = false ->
  formatLine (hashes n ++ rest) = Heading (heading_class n) (trimStart rest)
  /\ heading_level (hashes n ++ rest) = n
  /\ ((3 < n)%nat -> heading_class n = "font-medium mt-3 mb-1"%string).
Proof.
  intros Hn Hrest. destruct n as [|m]; [lia|].
  pose proof (heading_level_run m rest Hrest) as Hlevel.
  pose proof (heading_text_run m rest Hrest) as Htext.
  split; [|split; [exact Hlevel|]].
  - unfold formatLine. rewrite Hlevel, Htext. reflexivity.
  - intros H3. destruct m as [|[|[|m]]]; try lia. reflexivity.
Qed.

Lemma heading_rendered_witness :
  formatLine (lit "## Cold open")
  = Heading "text-lg font-semibold mt-5 mb-2" (lit "Cold open").
Proof.
  exact (proj1 (heading_rendered 2 (lit " Cold open") ltac:(lia) eq_refl)).
Defined.

(** *** Reading the branch taken off the result *)

Ltac branches_of H :=
  unfold formatLine in H;
  repeat match type of H with
         | context [if ?c then _ else _] =>
             let E := fresh "E" in destruct c eqn:E
         end;
  cbn [kind] in H; try discriminate H.

(** A pattern that begins with a single character or a [+] needs that
    character first. *)
Lemma test_needs_head (r : regex) (cls : N -> bool) (q : quant)
  (p : list atom) (s : str) :
  atoms r = (cls, q) :: p -> q = One \/ q = Plus ->
  head_is cls s = false -> test r s = false.
Proof.
  intros Hr Hq Hs. unfold test, exec. rewrite Hr.
  destruct s as [|c s]; destruct Hq as [-> | ->]; simpl in *;
    rewrite ?Hs; reflexivity.
Qed.

Lemma startsWith_needs_head (c0 : N) (p s : str) :
  head_is (N.eqb c0) s = false -> startsWith (c0 :: p) s = false.
Proof. destruct s as [|c s]; simpl; [reflexivity | now intros ->]. Qed.

(** *** Speaker lines, exactly *)

(** A line is rendered as a speaker's dialogue exactly when it begins
    with that speaker's label, plain or wrapped in double asterisks;
    any other spelling (lower case, a leading blank, a single asterisk,
    the colon outside the asterisks) is not a speaker line. *)
Theorem speaker_rendered_iff (who : Speaker) (line : str) :
  (exists text, formatLine line = SpeakerLine who text) <-> labelled who line.
Proof.
  split.
  - intros [text H]. branches_of H; destruct who; try discriminate H.
    + apply orb_true_iff in E. exact E.
    + apply orb_true_iff in E0. exact E0.
  - intros H. destruct (speaker_line_formatted who line H) as (text & Ht & _).
    now exists text.
Qed.

Lemma speaker_rendered_iff_witness :
  exists text, formatLine (lit "CLAIRE: No.") = SpeakerLine Claire text.
Proof.
  apply (proj2 (speaker_rendered_iff Claire (lit "CLAIRE: No."))).
  left. reflexivity.
Defined.

(** *** What is displayed of a line *)

(** The text of an element as the page holds it: the label span and
    the text span of a speaker line, the one text of a marker, a stage
    direction, a heading or regular text, none for a rule or a spacer. *)
Definition text_content (e : Element) : str :=
  match e with
  | SpeakerLine who text => lit (speaker_name who ++ ":") ++ text
  | TimestampMarker text | StageDirection text | Heading _ text
  | RegularText text => text
  | HorizontalRule | EmptyLine => []
  end.

Lemma speaker_labelled (who : Speaker) (line text : str) :
  formatLine line = SpeakerLine who text -> labelled who line.
Proof.
  intros H. branches_of H; destruct who; try discriminate H.
  - apply orb_true_iff in E. exact E.
  - apply orb_true_iff in E0. exact E0.
Qed.

(** The longest run of a character at the start of a text. *)
Lemma run_split (a : ascii) (s : str) :
  exists (n : nat) (rest : str),
    s = repeat (ch a) n ++ rest /\ head_is (is_char a) rest = false.
Proof.
  induction s as [|c s (n & rest & Hs & Hrest)].
  - now exists 0%nat, [].
  - destruct (is_char a c) eqn:Hc.
    + apply N.eqb_eq in Hc as ->. exists (S n), rest. simpl.
      now rewrite <- Hs.
    + exists 0%nat, (c :: s). simpl. auto.
Qed.

Lemma hashes_split (line : str) :
  startsWith (lit "#") line = true ->
  exists (m : nat) (rest : str),
    line = hashes (S m) ++ rest /\ head_is (is_char "#") rest = false.
Proof.
  intros H. apply startsWith_inv in H as [tl ->].
  destruct (run_split "#" tl) as (m & rest & -> & Hrest).
  now exists m, rest.
Qed.

(** What the viewer displays of a line is the line itself, less what
    the branch taken cuts from its front, and nothing else is ever cut,
    added or moved.  A speaker line shows the speaker's label and then
    the line without its label (the name and colon, at most two
    asterisks on each side, and all the white space after them).  A
    heading shows the line without its hashes, all of them, and the
    white space after them, in the class of the number of hashes.  A
    timestamp marker, a stage direction and regular text show the whole
    line. *)
Theorem displayed_text_exact (line : str) :
  (forall who text,
      formatLine line = SpeakerLine who text ->
      without_label (speaker_name who) line text
      /\ text_content (formatLine line)
         = lit (speaker_name who ++ ":") ++ text)
  /\ (forall cls text,
        formatLine line = Heading cls text ->
        exists (n : nat) (spaces : str),
          (0 < n)%nat
          /\ line = hashes n ++ spaces ++ text
          /\ forallb is_space spaces = true
          /\ head_is is_space text = false
          /\ head_is (is_char "#") (spaces ++ text) = false
          /\ cls = heading_class n
          /\ text_content (formatLine line) = text)
  /\ (kind (formatLine line) = KTimestamp
      \/ kind (formatLine line) = KStageDirection
      \/ (exists t, formatLine line = RegularText t) ->
      text_content (formatLine line) = line).
Proof.
  split; [|split].
  - intros who text H.
    pose proof (speaker_labelled _ _ _ H) as Hlab.
    destruct (speaker_line_formatted who line Hlab) as (text' & Ht & Hw).
    rewrite Ht in H. injection H as <-. rewrite Ht. split; [exact Hw|].
    reflexivity.
  - intros cls text H. rewrite H. pose proof H as H'. branches_of H'.
    match goal with
    | Hs : startsWith (lit "#") line = true |- _ =>
        destruct (hashes_split line Hs) as (m & rest & Hline & Hrest)
    end.
    rewrite Hline, (heading_level_run m rest Hrest),
      (heading_text_run m rest Hrest) in H'.
    injection H' as Hcls Htext.
    destruct (trimStart_split rest) as (w & Hw & Hsp).
    exists (S m), w. rewrite <- Htext, <- Hw.
    split; [lia|]. split; [exact Hline|]. split; [exact Hsp|].
    split; [apply head_trimStart_space|]. split; [exact Hrest|].
    split; [symmetry; exact Hcls | reflexivity].
  - unfold formatLine.
    repeat match goal with
           | |- context [if ?c then _ else _] => destruct c
           end; cbn [text_content kind];
      intros [H|[H|[t H]]]; try discriminate; reflexivity.
Qed.

(** The heading [##  Cold open] shows [Cold open]. *)
Lemma displayed_text_exact_witness :
  text_content (formatLine (lit "##  Cold open")) = lit "Cold open"
  /\ text_content (formatLine (lit "[intro music]")) = lit "[intro music]".
Proof.
  split.
  - destruct (proj1 (proj2 (displayed_text_exact (lit "##  Cold open")))
                "text-lg font-semibold mt-5 mb-2"%string (lit "Cold open")
                eq_refl) as (n & spaces & _ & _ & _ & _ & _ & _ & H).
    exact H.
  - apply (proj2 (proj2 (displayed_text_exact (lit "[intro music]")))).
    right. left. reflexivity.
Defined.

(** *** Bracketed lines, exactly *)

(** [[t]rest] with [t] a non-empty run of digits and colons. *)
Definition timestamp_shape (line : str) : Prop :=
  exists t rest,
    t <> [] /\ forallb is_digit_or_colon t = true
    /\ line = lit "[" ++ t ++ lit "]" ++ rest.

Lemma timestamp_test_iff (line : str) :
  test re_timestamp line = true <-> timestamp_shape line.
Proof.
  split.
  - unfold test, exec. intros H.
    destruct line as [|c0 [|c s]]; try discriminate H;
      cbn -[is_digit_or_colon star_exec] in H.
    + destruct (is_char "[" c0); discriminate H.
    + destruct (is_char "[" c0) eqn:H0; [|discriminate H].
      apply N.eqb_eq in H0 as ->.
      destruct (is_digit_or_colon c) eqn:Hc; [|discriminate H].
      destruct (star_exec _ _ s) as [r|] eqn:E; [|discriminate H].
      destruct (star_exec_inv _ _ _ _ E) as (t & rest & -> & Ht & Hk).
      destruct rest as [|c1 rest]; [discriminate Hk|].
      cbn in Hk. destruct (is_char "]" c1) eqn:H1; [|discriminate Hk].
      apply N.eqb_eq in H1 as ->.
      exists (c :: t), rest. split; [discriminate|]. split.
      * simpl. now rewrite Hc.
      * reflexivity.
  - intros (t & rest & Hne & Ht & ->). now apply timestamp_run.
Qed.

Lemma stage_test_iff (line : str) :
  test re_stage line = true <->
  exists body, wrapped line body /\ one_line body = true.
Proof.
  split.
  - unfold test, exec. intros H.
    destruct line as [|c0 s]; [discriminate H|].
    cbn -[is_dot star_exec] in H.
    destruct (is_char "[" c0) eqn:H0; [|discriminate H].
    apply N.eqb_eq in H0 as ->.
    destruct (star_exec _ _ s) as [r|] eqn:E; [|discriminate H].
    destruct (star_exec_inv _ _ _ _ E) as (t & rest & -> & Ht & Hk).
    destruct rest as [|c1 [|c2 rest]]; try discriminate Hk.
    + cbn in Hk. destruct (is_char "]" c1) eqn:H1; [|discriminate Hk].
      apply N.eqb_eq in H1 as ->. exists t. split; [reflexivity | exact Ht].
    + cbn in Hk. destruct (is_char "]" c1); discriminate Hk.
  - intros (body & -> & Hb). now apply stage_wrapped.
Qed.

(** A line is rendered as a timestamp marker exactly when it starts
    with a bracketed, non-empty run of digits and colons; it is
    rendered as a stage direction exactly when it is not of that shape
    and is one bracket-wrapped body free of line terminators. *)
Theorem bracket_kinds_iff (line : str) :
  (kind (formatLine line) = KTimestamp <-> timestamp_shape line)
  /\ (kind (formatLine line) = KStageDirection
      <-> (exists body, wrapped line body /\ one_line body = true)
          /\ ~ timestamp_shape line).
Proof.
  split; split.
  - intros H. branches_of H. now apply timestamp_test_iff.
  - intros Hs. pose proof (proj2 (timestamp_test_iff line) Hs) as Ht.
    destruct Hs as (t & rest & _ & _ & ->).
    now rewrite formatLine_bracket, Ht.
  - intros H. branches_of H. split; [now apply stage_test_iff|].
    intros Hs. apply timestamp_test_iff in Hs. congruence.
  - intros [Hw Hn]. pose proof (proj2 (stage_test_iff line) Hw) as Hst.
    destruct Hw as (body & -> & _). rewrite formatLine_bracket.
    destruct (test re_timestamp _) eqn:Ht.
    + exfalso. apply Hn. now apply timestamp_test_iff.
    + now rewrite Hst.
Qed.

(** *** Rules and blank lines, exactly *)

Lemma star_exec_all (cls : N -> bool) (t : str) :
  forallb cls t = true -> star_exec cls (finish true) t = Some [].
Proof.
  intros Ht. induction t as [|x t IH]; simpl in *; [reflexivity|].
  apply andb_true_iff in Ht as [-> Ht]. now rewrite (IH Ht).
Qed.

Lemma star_exec_to_end (cls : N -> bool) (s r : str) :
  star_exec cls (finish true) s = Some r -> forallb cls s = true.
Proof.
  intros H. destruct (star_exec_inv _ _ _ _ H) as (t & rest & -> & Ht & Hk).
  destruct rest; [|discriminate Hk]. now rewrite app_nil_r.
Qed.

Lemma rule_test_iff (line : str) :
  test re_rule line = true <->
  (3 <= length line)%nat /\ forallb is_dash_or_star line = true.
Proof.
  unfold test, exec. split.
  - intros H. destruct line as [|a [|b [|c t]]]; try discriminate H;
      cbn -[is_dash_or_star star_exec] in H.
    + destruct (is_dash_or_star a); discriminate H.
    + destruct (is_dash_or_star a); [|discriminate H].
      destruct (is_dash_or_star b); discriminate H.
    + destruct (is_dash_or_star a) eqn:Ha; [|discriminate H].
      destruct (is_dash_or_star b) eqn:Hb; [|discriminate H].
      destruct (is_dash_or_star c) eqn:Hc; [|discriminate H].
      destruct (star_exec _ _ t) as [r|] eqn:E; [|discriminate H].
      split; [simpl; lia|]. simpl. rewrite Ha, Hb, Hc.
      exact (star_exec_to_end _ _ _ E).
  - intros [Hlen Hall]. destruct line as [|a [|b [|c t]]]; simpl in Hlen;
      try lia.
    simpl in Hall. apply andb_true_iff in Hall as [Ha Hall].
    apply andb_true_iff in Hall as [Hb Hall].
    apply andb_true_iff in Hall as [Hc Hall].
    cbn -[is_dash_or_star star_exec]. rewrite Ha, Hb, Hc.
    now rewrite (star_exec_all _ _ Hall).
Qed.

Lemma class_excludes (cls : N -> bool) (k c : N) :
  cls c = true -> cls k = false -> N.eqb k c = false /\ N.eqb c k = false.
Proof.
  intros Hc Hk. split; apply N.eqb_neq; intros E; subst; congruence.
Qed.

(** A line whose first character belongs to a class that holds none of
    [D], [C], [[] and [#] passes the two speaker tests that start with
    a letter, the two bracket tests and the heading test. *)
Lemma head_outside_tests (cls : N -> bool) (c : N) (l : str) :
  cls c = true ->
  cls (ch "D") = false -> cls (ch "C") = false ->
  cls (ch "[") = false -> cls (ch "#") = false ->
  startsWith (lit "DOUG:") (c :: l) = false
  /\ startsWith (lit "CLAIRE:") (c :: l) = false
  /\ test re_timestamp (c :: l) = false
  /\ test re_stage (c :: l) = false
  /\ startsWith (lit "#") (c :: l) = false.
Proof.
  intros Hc HD HC Hb Hh.
  destruct (class_excludes cls _ c Hc HD) as [ED _].
  destruct (class_excludes cls _ c Hc HC) as [EC _].
  destruct (class_excludes cls _ c Hc Hb) as [_ Eb].
  destruct (class_excludes cls _ c Hc Hh) as [Eh _].
  repeat split.
  - apply startsWith_needs_head. exact ED.
  - apply startsWith_needs_head. exact EC.
  - apply (test_needs_head re_timestamp (is_char "[") One _ _ eq_refl);
      [now left | exact Eb].
  - apply (test_needs_head re_stage (is_char "[") One _ _ eq_refl);
      [now left | exact Eb].
  - apply startsWith_needs_head. exact Eh.
Qed.

(** A line is rendered as a horizontal rule exactly when it has at
    least three characters and all of them are dashes or asterisks. *)
Theorem rule_rendered_iff (line : str) :
  formatLine line = HorizontalRule <->
  (3 <= length line)%nat /\ forallb is_dash_or_star line = true.
Proof.
  split.
  - intros H. branches_of H. now apply rule_test_iff.
  - intros Hshape. pose proof (proj2 (rule_test_iff line) Hshape) as Hrule.
    destruct Hshape as [Hlen Hall].
    destruct line as [|a [|b [|c t]]]; simpl in Hlen; try lia.
    simpl in Hall. apply andb_true_iff in Hall as [Ha Hall].
    apply andb_true_iff in Hall as [Hb Hall].
    apply andb_true_iff in Hall as [Hc _].
    destruct (head_outside_tests is_dash_or_star a (b :: c :: t) Ha
                eq_refl eq_refl eq_refl eq_refl)
      as (Hd & Hcl & Hts & Hst & Hh).
    assert (Hbd : startsWith (lit "**DOUG:**") (a :: b :: c :: t) = false).
    { change (startsWith (lit "**DOUG:**") (a :: b :: c :: t))
        with (N.eqb 42 a && (N.eqb 42 b
              && (N.eqb 68 c && startsWith (lit "OUG:**") t))).
      rewrite (proj1 (class_excludes is_dash_or_star 68 c Hc eq_refl)).
      now rewrite !andb_false_r. }
    assert (Hbc : startsWith (lit "**CLAIRE:**") (a :: b :: c :: t) = false).
    { change (startsWith (lit "**CLAIRE:**") (a :: b :: c :: t))
        with (N.eqb 42 a && (N.eqb 42 b
              && (N.eqb 67 c && startsWith (lit "LAIRE:**") t))).
      rewrite (proj1 (class_excludes is_dash_or_star 67 c Hc eq_refl)).
      now rewrite !andb_false_r. }
    unfold formatLine. now rewrite Hd, Hbd, Hcl, Hbc, Hts, Hst, Hh, Hrule.
Qed.

(** A line is rendered as a blank spacer exactly when it is empty or
    consists of white space only. *)
Theorem blank_rendered_iff (line : str) :
  formatLine line = EmptyLine <-> forallb is_space line = true.
Proof.
  split.
  - intros H. branches_of H. apply trim_nil. now apply falsy_nil.
  - intros Hall. destruct line as [|c l]; [reflexivity|].
    pose proof Hall as Hall'. simpl in Hall'.
    apply andb_true_iff in Hall' as [Hc _].
    destruct (head_outside_tests is_space c l Hc
                eq_refl eq_refl eq_refl eq_refl)
      as (Hd & Hcl & Hts & Hst & Hh).
    assert (Hstar : N.eqb 42 c = false)
      by exact (proj1 (class_excludes is_space 42 c Hc eq_refl)).
    assert (Hbd : startsWith (lit "**DOUG:**") (c :: l) = false).
    { apply startsWith_needs_head. exact Hstar. }
    assert (Hbc : startsWith (lit "**CLAIRE:**") (c :: l) = false).
    { apply startsWith_needs_head. exact Hstar. }
    assert (Hrule : test re_rule (c :: l) = false).
    { apply (test_needs_head re_rule is_dash_or_star One _ _ eq_refl);
        [now left|].
      cbn [head_is]. destruct (is_dash_or_star c) eqn:E; [|reflexivity].
      apply orb_true_iff in E as [E|E]; apply N.eqb_eq in E; subst c;
        discriminate Hc. }
    apply trim_nil in Hall. unfold formatLine.
    now rewrite Hd, Hbd, Hcl, Hbc, Hts, Hst, Hh, Hrule, Hall.
Qed.

(** *** Lines and keys *)

Lemma split_nl_cons (s : str) : exists l ls, split_nl s = l :: ls.
Proof.
  induction s as [|c s (l & ls & E)]; simpl; [eauto|].
  destruct (N.eqb c 10); [eauto|]. rewrite E. eauto.
Qed.

Lemma join_cons (sep x y : str) (rest : list str) :
  join sep (x :: y :: rest) = x ++ sep ++ join sep (y :: rest).
Proof. reflexivity. Qed.

Lemma join_push (sep : str) (c : N) (l : str) (ls : list str) :
  join sep ((c :: l) :: ls) = c :: join sep (l :: ls).
Proof. destruct ls; reflexivity. Qed.

Lemma join_split_nl (s : str) : join [10%N] (split_nl s) = s.
Proof.
  induction s as [|c s IH]; simpl; [reflexivity|].
  destruct (N.eqb c 10) eqn:E.
  - apply N.eqb_eq in E as ->.
    destruct (split_nl_cons s) as (l & ls & Hs). rewrite Hs in *.
    rewrite join_cons, IH. reflexivity.
  - destruct (split_nl_cons s) as (l & ls & Hs). rewrite Hs in *.
    now rewrite join_push, IH.
Qed.

Definition no_newline (l : str) : Prop := Forall (fun c => c <> 10%N) l.

Lemma split_nl_no_newline (s : str) : Forall no_newline (split_nl s).
Proof.
  induction s as [|c s IH]; simpl.
  - repeat constructor.
  - destruct (N.eqb c 10) eqn:E.
    + constructor; [constructor | exact IH].
    + destruct (split_nl_cons s) as (l & ls & Hs). rewrite Hs in *.
      inversion IH as [|? ? Hl Hls]; subst. constructor; [|exact Hls].
      constructor; [now apply N.eqb_neq | exact Hl].
Qed.

Lemma split_nl_length (s : str) :
  length (split_nl s) = S (length (List.filter (N.eqb 10) s)).
Proof.
  induction s as [|c s IH]; [reflexivity|].
  cbn [split_nl List.filter]. rewrite (N.eqb_sym 10 c).
  destruct (N.eqb c 10); cbn [length].
  - now rewrite IH.
  - destruct (split_nl_cons s) as (l & ls & Hs). rewrite Hs in *.
    exact IH.
Qed.

Lemma split_nl_line (l : str) : no_newline l -> split_nl l = [l].
Proof.
  induction 1 as [|c l Hc _ IH]; simpl; [reflexivity|].
  apply N.eqb_neq in Hc. now rewrite Hc, IH.
Qed.

Lemma split_nl_app (l rest : str) :
  no_newline l -> split_nl (l ++ 10%N :: rest) = l :: split_nl rest.
Proof.
  induction 1 as [|c l Hc _ IH]; simpl; [reflexivity|].
  apply N.eqb_neq in Hc. now rewrite Hc, IH.
Qed.

Lemma split_nl_join (lines : list str) :
  lines <> [] -> Forall no_newline lines ->
  split_nl (join [10%N] lines) = lines.
Proof.
  intros Hne Hall. induction Hall as [|l ls Hl Hls IH]; [congruence|].
  destruct ls as [|l' ls].
  - simpl. now apply split_nl_line.
  - rewrite join_cons. change ([10%N] ++ ?x) with (10%N :: x).
    rewrite (split_nl_app _ _ Hl). f_equal. apply IH. discriminate.
Qed.

(** The viewer renders one element per line of the script, in order: a
    script with [n] line feeds gives [n + 1] elements, element [i] is
    keyed [i] and renders line [i].  No line holds a line feed, and the
    lines joined by line feeds are the script again; conversely any
    non-empty list of line-feed-free lines is what its join splits to. *)
Theorem script_lines_rendered (script : str) :
  length (formatScript script)
  = S (length (List.filter (N.eqb 10) script))
  /\ (forall i e, formatScript script !! i = Some e ->
                  fst e = i
                  /\ exists line, split_nl script !! i = Some line
                                  /\ snd e = formatLine line)
  /\ join [10%N] (split_nl script) = script
  /\ Forall no_newline (split_nl script)
  /\ (forall lines, lines <> [] -> Forall no_newline lines ->
                    split_nl (join [10%N] lines) = lines).
Proof.
  split; [|split; [|split; [|split]]].
  - now rewrite formatScript_length, split_nl_length.
  - intros i e H. unfold formatScript in H.
    apply list_lookup_imap_Some in H as (line & Hl & ->). eauto.
  - apply join_split_nl.
  - apply split_nl_no_newline.
  - apply split_nl_join.
Qed.

Lemma script_lines_rendered_witness :
  split_nl (join [10%N] [lit "DOUG: Hi"; []; lit "[pause]"])
  = [lit "DOUG: Hi"; []; lit "[pause]"].
Proof.
  apply (proj2 (proj2 (proj2 (proj2 (script_lines_rendered [])))));
    [discriminate|].
  repeat constructor; discriminate.
Defined.

(** *** Copy and download *)


(** *** The bytes of the file *)






(** The "Copied!" mark is set only by a clipboard write that succeeded,
    and whenever it is set a reset is still pending, so it never stays
    for good; every clipboard write carries the script. *)
Theorem copy_mark_resets (title script : str)
  (es : list ScriptViewerActions.Event) (s : ScriptViewerActions.State)
  (out : list ScriptViewerActions.Effect) :
  ScriptViewerActions.run title script ScriptViewerActions.initial es
  = Some (s, out) ->
  (ScriptViewerActions.copySuccess s = true ->
   (0 < ScriptViewerActions.timeouts s)%nat
   /\ ScriptViewerActions.CopySettled true ∈ es)
  /\ (forall t, ScriptViewerActions.ClipboardWrite t ∈ out -> t = script).
Proof.
  assert (G : forall es s0 s out,
             ScriptViewerActions.run title script s0 es = Some (s, out) ->
             (ScriptViewerActions.copySuccess s0 = true ->
              (0 < ScriptViewerActions.timeouts s0)%nat) ->
             (ScriptViewerActions.copySuccess s = true ->
              (0 < ScriptViewerActions.timeouts s)%nat
              /\ (ScriptViewerActions.copySuccess s0 = true
                  \/ ScriptViewerActions.CopySettled true ∈ es))
             /\ (forall t, ScriptViewerActions.ClipboardWrite t ∈ out ->
                           t = script)).
  { clear. induction es as [|e es IH]; intros s0 s out Hrun Hinv;
      cbn [ScriptViewerActions.run] in Hrun.
    - injection Hrun as <- <-. split; [auto|].
      intros t Ht. now apply elem_of_nil in Ht.
    - destruct (ScriptViewerActions.step title script s0 e)
        as [[s1 o1]|] eqn:E; [|discriminate].
      destruct (ScriptViewerActions.run title script s1 es)
        as [[s2 o2]|] eqn:R; [|discriminate].
      injection Hrun as <- <-.
      assert (Hstep :
        (ScriptViewerActions.copySuccess s1 = true ->
         (0 < ScriptViewerActions.timeouts s1)%nat
         /\ (ScriptViewerActions.copySuccess s0 = true
             \/ e = ScriptViewerActions.CopySettled true))
        /\ (forall t, ScriptViewerActions.ClipboardWrite t ∈ o1 ->
                      t = script)).
      { destruct s0 as [cs w tm]. destruct e; cbn in E.
        - injection E as <- <-. cbn in *. split; [auto|].
          intros t Ht. apply list_elem_of_singleton in Ht. congruence.
        - destruct w; [discriminate|]. injection E as <- <-.
          split; [|intros t Ht; now apply elem_of_nil in Ht].
          destruct written; cbn in *; intros Hc; split; auto; lia.
        - destruct tm; [discriminate|]. injection E as <- <-.
          split; [cbn; discriminate|].
          intros t Ht. now apply elem_of_nil in Ht.
        - injection E as <- <-. cbn in *. split; [auto|].
          intros t Ht. apply list_elem_of_singleton in Ht. discriminate. }
      destruct Hstep as [Hinv1 Hout1].
      destruct (IH _ _ _ R (fun H => proj1 (Hinv1 H))) as [Hinv2 Hout2].
      split.
      + intros Hc. destruct (Hinv2 Hc) as [Hpos [H1|Hin]].
        * split; [exact Hpos|]. destruct (Hinv1 H1) as [_ [H0| ->]]; auto.
          right. apply elem_of_cons. now left.
        * split; [exact Hpos|]. right. apply elem_of_cons. now right.
      + intros t Ht. apply elem_of_app in Ht as [Ht|Ht]; auto. }
  intros Hrun. destruct (G _ _ _ _ Hrun) as [Hinv Hout]; [discriminate|].
  split; [|exact Hout]. intros Hc. destruct (Hinv Hc) as [Hpos [H0|Hin]].
  - discriminate H0.
  - auto.
Qed.

Definition copy_once : list ScriptViewerActions.Event :=
  [ScriptViewerActions.ClickCopy; ScriptViewerActions.CopySettled true].

Lemma copy_mark_resets_witness :
  (0 < ScriptViewerActions.timeouts
         {| ScriptViewerActions.copySuccess := true;
            ScriptViewerActions.writes_in_flight := 0;
            ScriptViewerActions.timeouts := 1 |})%nat.
Proof.
  exact (proj1 (proj1 (copy_mark_resets [] (lit "DOUG: Hi") copy_once
                         _ _ eq_refl) eq_refl)).
Defined.

End ScriptViewerMore.

(** ** The episode detail page: loading and deleting *)

Module EpisodePageProps.
Import JS EpisodeDetailPage EpisodePage.

(** Declining the confirmation does nothing at all.  A deletion is
    requested only by a confirmed click in the episode view, for this
    episode; the page navigates to the episode list only when a
    deletion has succeeded. *)
Theorem delete_needs_confirmation (episodeId : str) (s s' : State)
  (e : Event) (out : list Effect) :
  step episodeId s e = Some (s', out) ->
  (e = ClickDelete false -> s' = s /\ out = [])
  /\ (forall x, DeleteEpisode x ∈ out ->
                e = ClickDelete true /\ x = episodeId
                /\ shows_episode (render s) = true)
  /\ (forall p, RouterPush p ∈ out ->
                e = DeleteSettled (Ok tt) /\ p = lit "/episodes").
Proof.
  intros Hstep. destruct e; cbn [step] in Hstep.
  - destruct (mounted s); [discriminate|].
    destruct (falsy episodeId); injection Hstep as <- <-;
      (split; [discriminate|]); split; intros x Hx;
      try (now apply elem_of_nil in Hx);
      apply list_elem_of_singleton in Hx; discriminate.
  - destruct (loads_in_flight s); [discriminate|].
    injection Hstep as <- <-. split; [discriminate|].
    split; intros x Hx; now apply elem_of_nil in Hx.
  - destruct (shows_episode (render s)) eqn:V; [|discriminate].
    destruct confirmed; cbn in Hstep; injection Hstep as <- <-.
    + split; [discriminate|]. split; intros x Hx;
        apply list_elem_of_singleton in Hx; [|discriminate].
      injection Hx as ->. auto.
    + split; [auto|]. split; intros x Hx; now apply elem_of_nil in Hx.
  - destruct (deletes_in_flight s); [discriminate|].
    destruct r as [[]|msg]; cbn in Hstep; injection Hstep as <- <-;
      (split; [discriminate|]); split; intros x Hx;
      try (now apply elem_of_nil in Hx);
      apply list_elem_of_singleton in Hx; [discriminate|].
    injection Hx as ->. auto.
Qed.

Definition loaded_page (ep : Episode) : State :=
  {| mounted := true; episode := Some ep; isLoading := false; error := None;
     loads_in_flight := 0; deletes_in_flight := 0 |}.

Lemma delete_needs_confirmation_witness :
  fst (handleDelete (lit "ep1") false
         (loaded_page EpisodeDetailPageProps.sample_episode))
  = loaded_page EpisodeDetailPageProps.sample_episode.
Proof.
  exact (proj1 (proj1 (delete_needs_confirmation (lit "ep1")
                         (loaded_page EpisodeDetailPageProps.sample_episode)
                         _ (ClickDelete false) _ eq_refl) eq_refl)).
Defined.

(** When a deletion fails, the failure's message (or "Failed to delete
    episode" for a thrown value that is no [Error]) is set and, unless
    that message is empty, the page swaps the episode for the "Episode
    Not Found" card carrying it, although the episode is still held;
    nothing is requested and nothing navigates. *)
Theorem failed_delete_hides_episode (episodeId : str) (s s' : State)
  (msg : option str) (out : list Effect) :
  isLoading s = false ->
  step episodeId s (DeleteSettled (Throws msg)) = Some (s', out) ->
  out = [] /\ episode s' = episode s
  /\ error s' = Some (message_or msg "Failed to delete episode")
  /\ (message_or msg "Failed to delete episode" <> [] ->
      render s' = NotFound (message_or msg "Failed to delete episode"))
  /\ (msg = None -> render s' = NotFound (lit "Failed to delete episode")).
Proof.
  intros Hl Hstep. cbn [step] in Hstep.
  destruct (deletes_in_flight s); [discriminate|].
  cbn in Hstep. injection Hstep as <- <-.
  assert (Hview : message_or msg "Failed to delete episode" <> [] ->
                  render
                    {| mounted := mounted s; episode := episode s;
                       isLoading := isLoading s;
                       error := Some (message_or msg "Failed to delete episode");
                       loads_in_flight := loads_in_flight s;
                       deletes_in_flight := pred (S n) |}
                  = NotFound (message_or msg "Failed to delete episode")).
  { intros Hne. unfold render. cbn [isLoading episode error]. rewrite Hl.
    destruct (message_or msg "Failed to delete episode") as [|c m] eqn:Em;
      [congruence|].
    destruct (episode s); reflexivity. }
  repeat split; [exact Hview|].
  intros ->. apply Hview. discriminate.
Qed.

Lemma failed_delete_hides_episode_witness :
  render (fst (handleDelete_settled (Throws (Some (lit "Server error")))
                 (fst (handleDelete (lit "ep1") true
                         (loaded_page EpisodeDetailPageProps.sample_episode)))))
  = NotFound (lit "Server error").
Proof.
  refine (proj1 (proj2 (proj2 (proj2
            (failed_delete_hides_episode (lit "ep1")
               (fst (handleDelete (lit "ep1") true
                       (loaded_page EpisodeDetailPageProps.sample_episode)))
               _ (Some (lit "Server error")) [] eq_refl eq_refl)))) _).
  discriminate.
Defined.

(** With an empty episode id the page never asks for anything and never
    leaves the spinner. *)
Theorem empty_id_never_loads (es : list Event) (s : State)
  (out : list Effect) :
  run [] initial es = Some (s, out) ->
  out = [] /\ render s = Spinner /\ episode s = None.
Proof.
  assert (G : forall es s0 s out,
             (s0 = initial
              \/ s0 = {| mounted := true; episode := None; isLoading := true;
                         error := None; loads_in_flight := 0;
                         deletes_in_flight := 0 |}) ->
             run [] s0 es = Some (s, out) ->
             out = [] /\ render s = Spinner /\ episode s = None).
  { clear. induction es as [|e es IH]; intros s0 s out H0 Hrun;
      cbn [run] in Hrun.
    - injection Hrun as <- <-. destruct H0 as [-> | ->]; auto.
    - destruct (step [] s0 e) as [[s1 o1]|] eqn:E; [|discriminate].
      destruct (run [] s1 es) as [[s2 o2]|] eqn:R; [|discriminate].
      injection Hrun as <- <-.
      assert (H1 : s1 = {| mounted := true; episode := None;
                           isLoading := true; error := None;
                           loads_in_flight := 0; deletes_in_flight := 0 |}
                   /\ o1 = []).
      { destruct H0 as [-> | ->]; destruct e; cbn in E;
          try discriminate E; injection E as <- <-; auto. }
      destruct H1 as [-> ->].
      destruct (IH _ _ _ (or_intror eq_refl) R) as (-> & Hv & He). auto. }
  intros Hrun. exact (G _ _ _ _ (or_introl eq_refl) Hrun).
Qed.

Lemma empty_id_never_loads_witness :
  render {| mounted := true; episode := None; isLoading := true;
            error := None; loads_in_flight := 0; deletes_in_flight := 0 |}
  = Spinner.
Proof.
  exact (proj1 (proj2 (empty_id_never_loads [Mount] _ [] eq_refl))).
Defined.

End EpisodePageProps.

(** ** The header *)

Module NavigationProps.
Import JS JSFacts Navigation.

(** At most one link of the header is highlighted: exactly one when the
    path is one of the four targets, none otherwise (so none on a page
    below them, such as an episode's). *)
Theorem one_active_link (pathname : str) :
  length (List.filter snd (nav_links pathname))
  = (if existsb (fun item => str_eqb pathname (href item)) navItems
     then 1 else 0)%nat
  /\ (forall item, (item, true) ∈ nav_links pathname ->
                   href item = pathname /\ item ∈ navItems).
Proof.
  split.
  - unfold nav_links, navItems, is_active. cbn [List.map List.filter existsb href snd].
    destruct (str_eqb pathname (lit "/")) eqn:E1;
      destruct (str_eqb pathname (lit "/upload")) eqn:E2;
      destruct (str_eqb pathname (lit "/episodes")) eqn:E3;
      destruct (str_eqb pathname (lit "/settings")) eqn:E4;
      try reflexivity;
      repeat match goal with
             | H : str_eqb _ _ = true |- _ => apply str_eqb_eq in H
             end; subst; discriminate.
  - intros item Hin. unfold nav_links in Hin.
    apply list_elem_of_In, in_map_iff in Hin as (it & [= -> Hact] & Hit).
    split; [symmetry; now apply str_eqb_eq | now apply list_elem_of_In].
Qed.

End NavigationProps.

(** ** The audio panel: loading, sections, failures *)

Module AudioPanelMore.
Import JS AudioPanel AudioPanelProps.

(** After the mount, the loading flag is up exactly while the first
    status request is in flight, and there is never a second one. *)
Definition load_tracked (s : State) : Prop :=
  (mounted s = false /\ s = initial)
  \/ (mounted s = true
      /\ ((isLoading s = true /\ loads_in_flight s = 1%nat)
          \/ (isLoading s = false /\ loads_in_flight s = 0%nat))).

Lemma load_tracked_step (episodeId : str) (s s' : State) (e : Event)
  (out : list Effect) :
  load_tracked s -> step episodeId s e = Some (s', out) -> load_tracked s'.
Proof.
  intros H Hstep. destruct s as [m j l g er iv lf pf gf].
  destruct e; cbn [step] in Hstep; cbn in H.
  - destruct m; [discriminate|]. destruct H as [[_ H]|[H _]]; [|discriminate].
    inversion H; subst. injection Hstep as <- <-. right. cbn. auto.
  - cbn in Hstep. destruct iv; [|discriminate]. injection Hstep as <- <-.
    destruct H as [[_ H]|H]; [discriminate H|]. right. exact H.
  - cbn in Hstep. destruct lf as [|n]; [discriminate|].
    destruct H as [[_ H]|[Hm [[_ Hn]|[_ Hn]]]]; try discriminate.
    injection Hn as ->.
    destruct r as [j'|]; cbn [checkAudioStatus_settled] in Hstep;
      rewrite ?setAudioJob_eq in Hstep; cbn in Hstep;
      injection Hstep as <- <-; right; cbn; auto.
  - cbn in Hstep. destruct pf as [|n]; [discriminate|].
    destruct H as [[_ H]|H]; [discriminate H|].
    destruct r as [j'|]; cbn [checkAudioStatus_settled] in Hstep;
      rewrite ?setAudioJob_eq in Hstep;
      cbn -[has_status expected_interval] in Hstep;
      injection Hstep as <- <-;
      try destruct (has_status complete j' || has_status failed j');
      right; exact H.
  - destruct (clickable _ _) eqn:C; [|discriminate].
    apply clickable_not_loading in C. cbn in C. subst l. cbn in Hstep.
    injection Hstep as <- <-.
    destruct H as [[_ H]|H]; [discriminate H|]. right. exact H.
  - cbn in Hstep. destruct gf as [|n]; [discriminate|].
    destruct H as [[_ H]|H]; [discriminate H|].
    destruct r as [job|msg]; cbn [handleGenerate_settled] in Hstep;
      rewrite ?setAudioJob_eq in Hstep; cbn -[expected_interval] in Hstep;
      injection Hstep as <- <-; right; exact H.
  - destruct (clickable _ _); [|discriminate]. cbn in Hstep.
    injection Hstep as <- <-. exact H.
Qed.

(** In every state the panel can reach after its mount, the loading
    view is shown exactly while the first status request is in flight,
    and at most one such request ever is.  However that request
    settles, with a job, with none or with an exception, the loading
    view goes away. *)
Theorem loading_tracks_request (episodeId : str) (s : State) :
  reachable episodeId s -> mounted s = true ->
  (loads_in_flight s <= 1)%nat
  /\ (render episodeId s = LoadingView <-> loads_in_flight s = 1%nat)
  /\ (forall r s' out,
        step episodeId s (LoadSettled r) = Some (s', out) ->
        render episodeId s' <> LoadingView /\ loads_in_flight s' = 0%nat).
Proof.
  intros Hr Hm.
  assert (Ht : load_tracked s).
  { clear Hm. induction Hr as [|s e s' out _ IH Hstep].
    - left. auto.
    - eapply load_tracked_step; eauto. }
  destruct Ht as [[Hm' _]|[_ Ht]]; [congruence|].
  split; [|split].
  - destruct Ht as [[_ ->]|[_ ->]]; lia.
  - unfold render. destruct Ht as [[-> ->]|[-> ->]]; split; auto; discriminate.
  - intros r s' out Hstep.
    assert (Ht' : load_tracked s').
    { eapply load_tracked_step; [|exact Hstep]. right. auto. }
    cbn [step] in Hstep. destruct (loads_in_flight s) as [|n] eqn:L;
      [discriminate|].
    destruct Ht as [[_ Hn]|[_ Hn]]; [|discriminate]. injection Hn as ->.
    destruct (checkAudioStatus_settled r _) as [s1 o1] eqn:C.
    injection Hstep as <- <-.
    assert (Hl : loads_in_flight (setIsLoading false s1) = 0%nat).
    { destruct r as [j'|]; cbn [checkAudioStatus_settled] in C;
        rewrite ?setAudioJob_eq in C; injection C as <- _;
        destruct s; reflexivity. }
    split; [|exact Hl]. unfold render. cbn. discriminate.
Qed.

Lemma loading_tracks_request_witness :
  render (lit "ep1") (state_after (lit "ep1") [Mount]) = LoadingView.
Proof.
  apply (proj1 (proj2 (loading_tracks_request (lit "ep1")
                         (state_after (lit "ep1") [Mount])
                         (state_after_reachable (lit "ep1") [Mount])
                         eq_refl))).
  reflexivity.
Defined.

(** The badge that goes with a status. *)
Definition badge_of (st : Status) : Badge :=
  match st with
  | complete => Ready
  | failed => Failed
  | pending | generating | processing => Processing
  end.

Definition count_some {A} (o : option A) : nat :=
  match o with Some _ => 1 | None => 0 end.

(** Once loaded, the panel shows exactly one of its four bodies, and
    which one is decided by the job held: the progress bar for a
    pending, generating or processing job, the player for a complete
    one, the failure with its retry for a failed one, the invitation to
    generate when there is no job; and the header carries the one badge
    of the job's status, or none. *)
Theorem one_section_shown (episodeId : str) (s : State) :
  isLoading s = false ->
  exists p,
    render episodeId s = PanelView p
    /\ (count_some (progress_section p) + count_some (completed_section p)
        + count_some (failed_section p) + count_some (no_audio_section p)
        = 1)%nat
    /\ badges p = match audioJob s with
                  | Some j => [badge_of (status j)]
                  | None => []
                  end
    /\ match audioJob s with
       | None => is_Some (no_audio_section p)
       | Some j =>
           match status j with
           | pending | generating | processing =>
               is_Some (progress_section p)
           | complete => is_Some (completed_section p)
           | failed => is_Some (failed_section p)
           end
       end
    /\ (is_Some (progress_section p) <-> isProcessing (audioJob s) = true)
    /\ (is_Some (no_audio_section p) <-> audioJob s = None).
Proof.
  intros Hl. unfold render. rewrite Hl. eexists. split; [reflexivity|].
  destruct (audioJob s) as [[ep st pr msg sc ds op]|]; cbn.
  - destruct st; cbn; repeat split; try discriminate;
      try (intros [? ?]; discriminate); try (intros _; eexists; reflexivity);
      eexists; reflexivity.
  - repeat split; try discriminate; try (intros [? ?]; discriminate);
      try (intros _; eexists; reflexivity); eexists; reflexivity.
Qed.

Lemma one_section_shown_witness :
  exists p,
    render (lit "ep1") (state_after (lit "ep1") load_failed) = PanelView p
    /\ badges p = [Failed]
    /\ is_Some (failed_section p).
Proof.
  destruct (one_section_shown (lit "ep1")
              (state_after (lit "ep1") load_failed) eq_refl)
    as (p & Hp & _ & Hb & Hshown & _).
  exists p. split; [exact Hp|]. split; [exact Hb | exact Hshown].
Defined.

(** No failure touches the snapshot or the timer.  A status request
    that throws, from the first load or from a poll, leaves the job held
    and the timer as they are (so polling simply goes on) and reports
    nothing; a generate request that throws leaves them too, shows the
    message (or "Failed to start audio generation") and lowers
    [isGenerating]. *)
Theorem failures_keep_snapshot (episodeId : str) (s s' : State)
  (e : Event) (out : list Effect) :
  step episodeId s e = Some (s', out) ->
  e = LoadSettled StatusThrows \/ e = PollSettled StatusThrows
  \/ (exists msg, e = GenerateSettled (GenerateThrows msg)) ->
  audioJob s' = audioJob s /\ interval s' = interval s /\ out = []
  /\ (e = PollSettled StatusThrows ->
      error s' = error s /\ isGenerating s' = isGenerating s
      /\ render episodeId s' = render episodeId s)
  /\ (forall msg, e = GenerateSettled (GenerateThrows msg) ->
      isGenerating s' = false
      /\ error s' = Some (match msg with
                          | Some m => m
                          | None => lit "Failed to start audio generation"
                          end)).
Proof.
  intros Hstep He. destruct s as [m j l g er iv lf pf gf].
  destruct He as [-> | [-> | [msg ->]]]; cbn in Hstep.
  - destruct lf; [discriminate|]. injection Hstep as <- <-.
    split; [reflexivity|]. split; [reflexivity|]. split; [reflexivity|].
    split; [discriminate | intros msg; discriminate].
  - destruct pf; [discriminate|]. injection Hstep as <- <-.
    split; [reflexivity|]. split; [reflexivity|]. split; [reflexivity|].
    split; [intros _; auto | intros msg; discriminate].
  - destruct gf; [discriminate|]. injection Hstep as <- <-.
    split; [reflexivity|]. split; [reflexivity|]. split; [reflexivity|].
    split; [discriminate | intros msg' [= <-]; auto].
Qed.

Definition poll_throws : list Event :=
  [Mount; LoadSettled (StatusOk (Some (job_with generating "Voices"))); Tick].

Lemma failures_keep_snapshot_witness :
  interval (state_after (lit "ep1") (poll_throws ++ [PollSettled StatusThrows]))
  = interval (state_after (lit "ep1") poll_throws).
Proof.
  refine (proj1 (proj2 (failures_keep_snapshot (lit "ep1")
            (state_after (lit "ep1") poll_throws)
            (state_after (lit "ep1") (poll_throws ++ [PollSettled StatusThrows]))
            (PollSettled StatusThrows) [] _ _))).
  - vm_compute. reflexivity.
  - right. left. reflexivity.
Defined.

End AudioPanelMore.

(** ** The blog uploader: how a request ends *)

Module BlogUploaderMore.
Import JS JSFacts BlogUploader BlogUploaderProps.

Lemma falsy_nil_false (s : str) : s <> [] -> falsy s = false.
Proof. destruct s; [congruence | reflexivity]. Qed.

Definition thrown_or (msg : option str) (fallback : string) : str :=
  match msg with Some m => m | None => lit fallback end.

(** A paste submission that passes the check raises the loading flag,
    clears the old message and leaves the form as typed.  Whenever the
    creation then fails, nothing in the form is lost: title, content and
    paste mode stay as they are at that moment, the failure's message
    (or "Create failed") is shown and [onUpload] is not called.  When it
    succeeds, [onUpload] receives the created blog, once, and the form
    is emptied and closed.  Either way the loading flag is lowered. *)
Theorem paste_request_outcome (s later : State) (r : Result) :
  trim (title s) <> [] -> trim (content s) <> [] ->
  let started := fst (handlePasteSubmit s) in
  let ended := fst (handlePasteSubmit_settled r later) in
  let out := snd (handlePasteSubmit_settled r later) in
  (isLoading started = true /\ error started = None
   /\ title started = title s /\ content started = content s
   /\ pasteMode started = pasteMode s)
  /\ isLoading ended = false
  /\ match r with
     | Ok blog =>
         out = [OnUpload blog] /\ title ended = [] /\ content ended = []
         /\ pasteMode ended = false /\ error ended = error later
     | Throws msg =>
         out = [] /\ title ended = title later
         /\ content ended = content later
         /\ pasteMode ended = pasteMode later
         /\ error ended = Some (thrown_or msg "Create failed")
     end.
Proof.
  intros Ht Hc. unfold handlePasteSubmit.
  apply falsy_nil_false in Ht. apply falsy_nil_false in Hc.
  rewrite Ht, Hc. cbn. destruct r; cbn; auto 10.
Qed.

Definition typed_form : State :=
  setPasteMode true
    (setContent (lit "# Load growth") (setTitle (lit "PJM") initial)).

Lemma paste_request_outcome_witness :
  title (fst (handlePasteSubmit_settled (Throws None)
                (fst (handlePasteSubmit typed_form)))) = lit "PJM"
  /\ error (fst (handlePasteSubmit_settled (Throws None)
                   (fst (handlePasteSubmit typed_form))))
     = Some (lit "Create failed").
Proof.
  destruct (paste_request_outcome typed_form
              (fst (handlePasteSubmit typed_form)) (Throws None))
    as (_ & _ & _ & Ht & _ & _ & He); [discriminate | discriminate |].
  split; [exact Ht | exact He].
Defined.

End BlogUploaderMore.

(** ** The generation wizard: selection, freezing, timers *)

Module GenerationWizardMore.
Import JS JSFacts GenerationWizard GenerationWizardProps.

Lemma NoDup_remove (a : str) (l : list str) :
  NoDup l -> NoDup (List.filter (fun y => negb (str_eqb y a)) l).
Proof.
  induction 1 as [|x l Hx _ IH]; simpl; [constructor|].
  destruct (negb (str_eqb x a)); [|exact IH].
  constructor; [|exact IH]. rewrite elem_of_remove. tauto.
Qed.

Lemma NoDup_snoc (a : str) (l : list str) :
  NoDup l -> a ∉ l -> NoDup (l ++ [a]).
Proof.
  intros Hl Ha. apply NoDup_app. split; [exact Hl|]. split.
  - intros x Hx Hx'. apply list_elem_of_singleton in Hx'. now subst.
  - apply NoDup_singleton.
Qed.

Lemma toggle_NoDup (a : str) (g : GenerationSettings) :
  NoDup (focus_areas g) -> NoDup (focus_areas (toggleFocusArea a g)).
Proof.
  intros H. destruct (decide (a ∈ focus_areas g)) as [Hin|Hout].
  - rewrite (toggle_present _ _ Hin). now apply NoDup_remove.
  - rewrite (toggle_absent _ _ Hout). now apply NoDup_snoc.
Qed.

Lemma step_NoDup (blog_id : str) (s s' : State) (e : Event)
  (out : list Effect) :
  NoDup (focus_areas (settings s)) -> step blog_id s e = Some (s', out) ->
  NoDup (focus_areas (settings s'))
  /\ forall b g, GenerateEpisode b g ∈ out -> NoDup (focus_areas g).
Proof.
  intros Hnd Hstep.
  assert (Hnone : forall b g, GenerateEpisode b g ∈ [] ->
                              NoDup (focus_areas g)).
  { intros b g H. now apply elem_of_nil in H. }
  destruct e; cbn [step] in Hstep.
  - destruct (_ && _); [|discriminate]. injection Hstep as <- <-. auto.
  - destruct (_ && _); [|discriminate]. injection Hstep as <- <-. auto.
  - destruct (_ && _); [|discriminate]. injection Hstep as <- <-.
    split; [|exact Hnone]. now apply toggle_NoDup.
  - destruct (isGenerating s); [discriminate|].
    injection Hstep as <- <-. split; [exact Hnd|].
    intros b g Hin. apply list_elem_of_singleton in Hin.
    now injection Hin as -> ->.
  - destruct (isGenerating s); [|discriminate].
    destruct r; injection Hstep as <- <-; (split; [exact Hnd|]);
      intros b g Hin;
      [apply list_elem_of_singleton in Hin; discriminate
      | now apply elem_of_nil in Hin].
  - unfold progressTick in Hstep.
    destruct (timers s !! i) as [stepIndex|]; [|discriminate].
    injection Hstep as <- <-. split; [|exact Hnone].
    match goal with
    | |- context [if ?c then _ else _] => destruct c
    end; exact Hnd.
  - destruct (isGenerating s); [discriminate|].
    injection Hstep as <- <-. split; [exact Hnd|].
    intros b g Hin. apply list_elem_of_singleton in Hin. discriminate.
Qed.

Lemma run_NoDup (blog_id : str) (es : list Event) (s s' : State)
  (out : list Effect) :
  NoDup (focus_areas (settings s)) -> run blog_id s es = Some (s', out) ->
  NoDup (focus_areas (settings s'))
  /\ forall b g, GenerateEpisode b g ∈ out -> NoDup (focus_areas g).
Proof.
  revert s out. induction es as [|e es IH]; intros s out Hnd Hrun;
    cbn in Hrun.
  - injection Hrun as <- <-. split; [exact Hnd|].
    intros b g H. now apply elem_of_nil in H.
  - destruct (step blog_id s e) as [[s1 o1]|] eqn:E; [|discriminate].
    destruct (run blog_id s1 es) as [[s2 o2]|] eqn:R; [|discriminate].
    injection Hrun as <- <-.
    destruct (step_NoDup _ _ _ _ _ Hnd E) as [H1 Ho1].
    destruct (IH _ _ H1 R) as [H2 Ho2].
    split; [exact H2|]. intros b g Hin.
    apply elem_of_app in Hin as [Hin|Hin]; eauto.
Qed.

Lemma NoDup_within (l k : list str) :
  NoDup l -> l ⊆ k -> (length l <= length k)%nat.
Proof.
  intros Hnd Hsub. apply submseteq_length.
  now apply NoDup_submseteq.
Qed.

(** Whatever the user does, no focus area is ever selected twice: the
    list held by the wizard, and every list it sends for generation,
    has no duplicate and therefore at most four entries. *)
Theorem focus_areas_never_repeat (blog_id : str) (es : list Event)
  (s : State) (out : list Effect) :
  run blog_id initial es = Some (s, out) ->
  (NoDup (focus_areas (settings s))
   /\ (length (focus_areas (settings s)) <= 4)%nat)
  /\ (forall b g, GenerateEpisode b g ∈ out ->
                  NoDup (focus_areas g) /\ (length (focus_areas g) <= 4)%nat).
Proof.
  intros Hrun.
  destruct (run_NoDup blog_id es initial s out (NoDup_nil_2) Hrun)
    as [Hnd Hsent].
  destruct (run_settings_ok blog_id es initial s out initial_settings_ok Hrun)
    as [(_ & _ & Hsub) Hok].
  split.
  - split; [exact Hnd|]. exact (NoDup_within _ focus_tags Hnd Hsub).
  - intros b g Hin. split; [now apply (Hsent b)|].
    destruct (Hok b g Hin) as (_ & _ & Hg).
    exact (NoDup_within _ focus_tags (Hsent b g Hin) Hg).
Qed.

Definition toggle_three_times : list Event :=
  [ToggleFocusArea (lit "startups"); ToggleFocusArea (lit "startups");
   ToggleFocusArea (lit "startups")].

Lemma focus_areas_never_repeat_witness :
  NoDup [lit "startups"].
Proof.
  exact (proj1 (proj1 (focus_areas_never_repeat (lit "blog-1")
           toggle_three_times
           {| settings := {| duration := lit "medium"; humor_level := Num 3;
                             focus_areas := [lit "startups"];
                             custom_talking_points := [] |};
              isGenerating := false; progress := None; error := None;
              timers := [] |} [] eq_refl))).
Defined.

Lemma remove_perm (a : str) (l : list str) :
  NoDup l -> a ∈ l ->
  List.filter (fun y => negb (str_eqb y a)) l ++ [a] ≡ₚ l.
Proof.
  induction 1 as [|x l Hx Hnd IH]; intros Hin.
  - now apply elem_of_nil in Hin.
  - simpl. destruct (str_eqb x a) eqn:E; simpl.
    + apply str_eqb_eq in E as ->.
      rewrite (remove_absent _ _ Hx).
      symmetry. apply Permutation_cons_append.
    + apply elem_of_cons in Hin as [->|Hin].
      * now rewrite str_eqb_refl in E.
      * now rewrite (IH Hin).
Qed.

(** On a selection without duplicates, toggling an area twice brings
    back the same selection: the very same settings when the area was
    not selected, and the same areas with this one moved to the end
    when it was. *)
Theorem toggle_twice_restores (a : str) (g : GenerationSettings) :
  NoDup (focus_areas g) ->
  focus_areas (toggleFocusArea a (toggleFocusArea a g)) ≡ₚ focus_areas g
  /\ (a ∉ focus_areas g -> toggleFocusArea a (toggleFocusArea a g) = g)
  /\ (a ∈ focus_areas g ->
      focus_areas (toggleFocusArea a (toggleFocusArea a g))
      = List.filter (fun y => negb (str_eqb y a)) (focus_areas g) ++ [a]).
Proof.
  intros Hnd.
  assert (Hout : a ∉ focus_areas g ->
                 toggleFocusArea a (toggleFocusArea a g) = g).
  { intros Hout.
    assert (Hin : a ∈ focus_areas (toggleFocusArea a g)).
    { rewrite (toggle_absent _ _ Hout), elem_of_app,
        list_elem_of_singleton. now right. }
    destruct g as [d h f c]. unfold toggleFocusArea at 1. cbn [duration
      humor_level custom_talking_points].
    apply includes_iff in Hin. rewrite Hin.
    rewrite (toggle_absent _ _ Hout). cbn [focus_areas] in *.
    now rewrite remove_app, (remove_absent _ _ Hout). }
  assert (Hin : a ∈ focus_areas g ->
                focus_areas (toggleFocusArea a (toggleFocusArea a g))
                = List.filter (fun y => negb (str_eqb y a)) (focus_areas g)
                  ++ [a]).
  { intros Hin.
    assert (Hgone : a ∉ focus_areas (toggleFocusArea a g)).
    { rewrite (toggle_present _ _ Hin), elem_of_remove. tauto. }
    now rewrite (toggle_absent _ _ Hgone), (toggle_present _ _ Hin). }
  split; [|split; [exact Hout | exact Hin]].
  destruct (decide (a ∈ focus_areas g)) as [H|H].
  - rewrite (Hin H). now apply remove_perm.
  - now rewrite (Hout H).
Qed.

Lemma toggle_twice_restores_witness :
  focus_areas (toggleFocusArea (lit "consumers")
                 (toggleFocusArea (lit "consumers")
                    {| duration := lit "long"; humor_level := Num 1;
                       focus_areas := [lit "consumers"; lit "utilities"];
                       custom_talking_points := [] |}))
  = [lit "utilities"; lit "consumers"].
Proof.
  refine (proj2 (proj2 (toggle_twice_restores (lit "consumers")
            {| duration := lit "long"; humor_level := Num 1;
               focus_areas := [lit "consumers"; lit "utilities"];
               custom_talking_points := [] |} _)) _).
  - apply NoDup_cons. split.
    + intros H. apply list_elem_of_singleton in H. discriminate.
    + apply NoDup_singleton.
  - apply elem_of_cons. now left.
Defined.

(** While a generation runs, the settings cannot change and nothing can
    be requested or cancelled: the only things that happen are a tick
    of a progress timer and the answer to the request.  So what was sent
    is what the wizard still shows when the answer arrives, and a second
    request never overlaps the first. *)
Theorem settings_frozen_while_generating (blog_id : str) (s s' : State)
  (e : Event) (out : list Effect) :
  isGenerating s = true -> step blog_id s e = Some (s', out) ->
  settings s' = settings s
  /\ ((exists r, e = GenerateSettled r) \/ (exists i, e = ProgressTick i))
  /\ (forall f, f ∈ out -> exists episode, f = OnComplete episode)
  /\ (forall i, e = ProgressTick i -> isGenerating s' = true).
Proof.
  intros Hg Hstep. destruct e; cbn [step] in Hstep; rewrite ?Hg in Hstep;
    cbn in Hstep; try discriminate Hstep.
  - destruct r; injection Hstep as <- <-; (split; [reflexivity|]);
      (split; [left; eauto|]); split; try discriminate; intros f Hf;
      [apply list_elem_of_singleton in Hf; eauto | now apply elem_of_nil in Hf].
  - unfold progressTick in Hstep.
    destruct (timers s !! i) as [stepIndex|]; [|discriminate].
    injection Hstep as <- <-.
    match goal with
    | |- context [if ?c then _ else _] => destruct c
    end; (split; [reflexivity|]); (split; [right; eauto|]);
      (split; [intros f Hf; now apply elem_of_nil in Hf
              | intros i' _; exact Hg]).
Qed.

Definition generating : State :=
  fst (handleGenerate (lit "blog-1") initial).

Lemma settings_frozen_while_generating_witness :
  step (lit "blog-1") generating (ToggleFocusArea (lit "utilities")) = None
  /\ settings (fst (handleGenerate_settled (Throws None) generating))
     = settings generating.
Proof.
  split; [reflexivity|].
  exact (proj1 (settings_frozen_while_generating (lit "blog-1") generating
                  _ (GenerateSettled (Throws None)) _ eq_refl eq_refl)).
Defined.

(** *** Progress timers *)

Definition is_failure (e : Event) : bool :=
  match e with GenerateSettled (Throws _) => true | _ => false end.

Definition failures (es : list Event) : nat :=
  length (List.filter is_failure es).

Definition running (s : State) : nat := if isGenerating s then 1 else 0.

Definition progress_known (s : State) : Prop :=
  match progress s with
  | Some text => text ∈ progressSteps
  | None => True
  end.

(** A generation under way owns the newest timer. *)
Definition timers_sound (s : State) : Prop :=
  (isGenerating s = true -> timers s <> []) /\ progress_known s.

Ltac wizard_fields :=
  cbn [settings isGenerating progress error timers setSettings setProgress
       handleGenerate handleGenerate_settled fst snd is_failure length
       Init.Nat.add].

Ltac wizard_fields_in H :=
  cbn [settings isGenerating progress error timers setSettings setProgress
       handleGenerate handleGenerate_settled fst snd] in H.

Lemma step_timers (blog_id : str) (s s' : State) (e : Event)
  (out : list Effect) :
  timers_sound s -> step blog_id s e = Some (s', out) ->
  timers_sound s'
  /\ (length (timers s') + running s
      = length (timers s) + (if is_failure e then 1 else 0) + running s')%nat.
Proof.
  intros [Hown Hprog] Hstep. unfold timers_sound, progress_known, running in *.
  destruct s as [g b p er tm]. cbn [isGenerating timers progress] in *.
  destruct e; cbn [step] in Hstep; wizard_fields_in Hstep.
  - destruct (_ && _) eqn:E; [|discriminate]. injection Hstep as <- <-.
    wizard_fields. repeat split; auto; lia.
  - destruct (_ && _) eqn:E; [|discriminate]. injection Hstep as <- <-.
    wizard_fields. repeat split; auto; lia.
  - destruct (_ && _) eqn:E; [|discriminate]. injection Hstep as <- <-.
    wizard_fields. repeat split; auto; lia.
  - destruct b; [discriminate|]. injection Hstep as <- <-. wizard_fields.
    split; [split|lia]; [discriminate|].
    apply elem_of_cons. now left.
  - destruct b; [|discriminate].
    destruct r; injection Hstep as <- <-; wizard_fields.
    + split; [split; [discriminate | exact I]|].
      destruct tm as [|t tm]; [now specialize (Hown eq_refl)|].
      cbn [tail length]. lia.
    + split; [split; [discriminate | exact I]|]. lia.
  - unfold progressTick in Hstep. cbn [timers] in Hstep.
    destruct (tm !! i) as [stepIndex|] eqn:Ei; [|discriminate].
    cbv zeta in Hstep. injection Hstep as <- <-.
    assert (Hlen : forall x : nat, length (<[i:=x]> tm) = length tm)
      by (intros x; apply length_insert).
    assert (Hne : b = true -> forall x : nat, <[i:=x]> tm <> []).
    { intros Hb x Hnil. apply Hown in Hb.
      apply (f_equal length) in Hnil. rewrite Hlen in Hnil.
      destruct tm; [congruence | discriminate]. }
    match goal with
    | |- context [if ?c then _ else _] => destruct c
    end; wizard_fields; rewrite Hlen.
    + split; [split|lia]; [intros Hb; now apply Hne|].
      match goal with
      | |- match ?o with _ => _ end => destruct o as [text|] eqn:El
      end; [|exact I].
      unfold progressSteps. apply elem_of_cons. right.
      eapply list_elem_of_lookup_2; eauto.
    + split; [split|lia]; [intros Hb; now apply Hne | exact Hprog].
  - destruct b; [discriminate|]. injection Hstep as <- <-. wizard_fields.
    repeat split; auto; lia.
Qed.

(** Only a successful generation clears its progress timer.  After any
    run of the wizard, the timers still alive are one per failed
    generation, plus the one of a generation under way; and the
    progress text is always absent or one of the five steps. *)
Theorem failed_generations_leave_timers (blog_id : str) (es : list Event)
  (s : State) (out : list Effect) :
  run blog_id initial es = Some (s, out) ->
  length (timers s) = (failures es + running s)%nat
  /\ progress_known s.
Proof.
  assert (G : forall es s0 s out,
             timers_sound s0 -> run blog_id s0 es = Some (s, out) ->
             timers_sound s
             /\ (length (timers s) + running s0
                 = length (timers s0) + failures es + running s)%nat).
  { clear. induction es as [|e es IH]; intros s0 s out H0 Hrun;
      cbn [run] in Hrun.
    - injection Hrun as <- <-. split; [exact H0|]. unfold failures. cbn. lia.
    - destruct (step blog_id s0 e) as [[s1 o1]|] eqn:E; [|discriminate].
      destruct (run blog_id s1 es) as [[s2 o2]|] eqn:R; [|discriminate].
      injection Hrun as <- <-.
      destruct (step_timers _ _ _ _ _ H0 E) as [H1 Hc1].
      destruct (IH _ _ _ H1 R) as [H2 Hc2]. split; [exact H2|].
      unfold failures in *. cbn [List.filter].
      destruct (is_failure e); cbn [length]; lia. }
  intros Hrun.
  destruct (G es initial s out) as [[_ Hp] Hc]; [|exact Hrun|].
  - split; [discriminate | exact I].
  - split; [|exact Hp]. cbn in Hc. lia.
Qed.

Definition fail_twice : list Event :=
  [ClickGenerate; GenerateSettled (Throws None);
   ClickGenerate; GenerateSettled (Throws None)].

Lemma failed_generations_leave_timers_witness :
  length [0%nat; 0%nat] = 2%nat.
Proof.
  exact (proj1 (failed_generations_leave_timers (lit "blog-1") fail_twice
           {| settings := initial_settings; isGenerating := false;
              progress := None;
              error := Some (lit "Generation failed");
              timers := [0%nat; 0%nat] |} [GenerateEpisode (lit "blog-1")
                                             initial_settings;
                                           GenerateEpisode (lit "blog-1")
                                             initial_settings]
           eq_refl)).
Defined.

End GenerationWizardMore.

(** ** The dashboard *)

Module DashboardProps.
Import JS JSFacts Dashboard.

Definition paired (s : State) : Prop :=
  showGenerator s = true <-> is_Some (selectedBlog s).

Lemma paired_step (s s' : State) (e : Event) (out : list Effect) :
  paired s -> step s e = Some (s', out) -> paired s'.
Proof.
  unfold paired. intros H Hstep.
  assert (Hboth : true = true <-> is_Some (Some tt)) by (split; eauto).
  assert (Hnone : false = true <-> is_Some (@None Blog)).
  { split; [discriminate | intros [? ?]; discriminate]. }
  destruct s as [m bs es sel sg l lf bd ed]. cbn in H.
  destruct e; cbn [step] in Hstep; cbn in Hstep.
  - destruct m; [discriminate|]. injection Hstep as <- <-. exact H.
  - destruct lf; [discriminate|]. injection Hstep as <- <-. exact H.
  - destruct l; [discriminate|]. injection Hstep as <- <-. cbn.
    split; eauto.
  - destruct l; [discriminate|]. destruct (bs !! i); [|discriminate].
    injection Hstep as <- <-. cbn. split; eauto.
  - destruct l; [discriminate|]. destruct (bs !! i); [|discriminate].
    injection Hstep as <- <-. exact H.
  - unfold handleDeleteBlog_settled in Hstep. cbn in Hstep.
    destruct (bd !! k) as [[id closed]|]; [|discriminate].
    destruct ok; injection Hstep as <- <-; cbn; [|exact H].
    destruct (has_id id closed); [exact Hnone | exact H].
  - destruct (l || _); [discriminate|].
    destruct (_ !! i); [|discriminate]. injection Hstep as <- <-. exact H.
  - unfold handleDeleteEpisode_settled in Hstep. cbn in Hstep.
    destruct (ed !! k); [|discriminate]. injection Hstep as <- <-. exact H.
  - destruct l; [discriminate|]. injection Hstep as <- <-. exact Hnone.
  - destruct (l || _); [discriminate|]. injection Hstep as <- <-.
    exact Hnone.
Qed.

(** In every state the dashboard can reach, the generator flag is up
    exactly when a blog is selected, so the right column holds the
    wizard exactly when a blog is selected and the recent episodes
    otherwise. *)
Theorem wizard_iff_selected (s : State) :
  reachable s ->
  (showGenerator s = true <-> is_Some (selectedBlog s))
  /\ (wizard_shown s = true <-> is_Some (selectedBlog s))
  /\ (wizard_shown s = false <-> selectedBlog s = None).
Proof.
  intros Hr.
  assert (H : paired s).
  { induction Hr as [|s e s' out _ IH Hstep].
    - split; [discriminate | intros [? ?]; discriminate].
    - eapply paired_step; eauto. }
  unfold paired in H. split; [exact H|]. unfold wizard_shown.
  destruct (selectedBlog s) as [b|].
  - destruct (showGenerator s).
    + split; split; eauto; discriminate.
    + exfalso. assert (false = true) by (apply H; eauto). discriminate.
  - rewrite andb_false_r. split; split; auto; try discriminate.
    intros [? ?]; discriminate.
Qed.

Definition a_blog : Blog :=
  {| BlogUploader.id := lit "b1"; BlogUploader.blog_title := lit "PJM";
     BlogUploader.blog_content := lit "# PJM"; BlogUploader.tags := [];
     BlogUploader.summary := []; BlogUploader.created_at := lit "2025" |}.

Lemma uploaded_reachable :
  reachable (handleBlogUpload a_blog
               (loadData_settled (Some ([], []))
                  {| mounted := true; blogs := []; episodes := [];
                     selectedBlog := None; showGenerator := false;
                     isLoading := true; loads_in_flight := 1;
                     blog_deletes := []; episode_deletes := [] |})).
Proof.
  eapply reachable_step with (e := BlogUploaded a_blog);
    [eapply reachable_step with (e := LoadSettled (Some ([], [])));
       [eapply reachable_step with (e := Mount);
          [apply reachable_initial | reflexivity]
       | reflexivity]
    | reflexivity].
Qed.

Lemma wizard_iff_selected_witness :
  wizard_shown (handleBlogUpload a_blog
                  (loadData_settled (Some ([], []))
                     {| mounted := true; blogs := []; episodes := [];
                        selectedBlog := None; showGenerator := false;
                        isLoading := true; loads_in_flight := 1;
                        blog_deletes := []; episode_deletes := [] |})) = true.
Proof.
  apply (proj2 (proj1 (proj2 (wizard_iff_selected _ uploaded_reachable)))).
  eexists. reflexivity.
Defined.

Lemma elem_of_without (id : str) (b : Blog) (bs : list Blog) :
  b ∈ List.filter (fun x => negb (str_eqb (blog_id x) id)) bs
  <-> b ∈ bs /\ blog_id b <> id.
Proof.
  rewrite !list_elem_of_In, filter_In, negb_true_iff, str_eqb_neq.
  reflexivity.
Qed.

(** When the answer to a blog deletion is a success, every blog with
    that id leaves the list and all others stay; the wizard is closed
    exactly when the blog that was selected at the time of the click had
    that id, whatever is selected now.  When the request fails, lists
    and selection stay as they are.  Either way nothing is requested
    and the episodes are untouched. *)
Theorem blog_deletion_settles (s s' : State) (k : nat) (ok : bool)
  (out : list Effect) :
  step s (BlogDeleteSettled k ok) = Some (s', out) ->
  exists id closed_over,
    blog_deletes s !! k = Some (id, closed_over)
    /\ out = [] /\ episodes s' = episodes s
    /\ (ok = false ->
        blogs s' = blogs s /\ selectedBlog s' = selectedBlog s
        /\ showGenerator s' = showGenerator s)
    /\ (ok = true ->
        (forall b, b ∈ blogs s' <-> b ∈ blogs s /\ blog_id b <> id)
        /\ (has_id id closed_over = true ->
            selectedBlog s' = None /\ showGenerator s' = false)
        /\ (has_id id closed_over = false ->
            selectedBlog s' = selectedBlog s
            /\ showGenerator s' = showGenerator s)).
Proof.
  intros Hstep. cbn [step] in Hstep. unfold handleDeleteBlog_settled in Hstep.
  destruct (blog_deletes s !! k) as [[id closed]|] eqn:E; [|discriminate].
  exists id, closed. split; [reflexivity|].
  destruct ok; injection Hstep as <- <-; cbn.
  - split; [reflexivity|]. split; [reflexivity|]. split; [discriminate|].
    intros _. split; [intros b; apply elem_of_without|].
    destruct (has_id id closed); split; auto; discriminate.
  - split; [reflexivity|]. split; [reflexivity|]. split; [auto | discriminate].
Qed.

(** The blog is selected, its deletion is clicked, then another blog
    is selected: when the deletion succeeds the wizard closes all the
    same. *)
Definition other_blog : Blog :=
  {| BlogUploader.id := lit "b2"; BlogUploader.blog_title := lit "ERCOT";
     BlogUploader.blog_content := lit "# ERCOT"; BlogUploader.tags := [];
     BlogUploader.summary := []; BlogUploader.created_at := lit "2025" |}.

Definition deleting_selected : State :=
  handleBlogSelect other_blog
    (fst (handleDeleteBlog (lit "b1")
            {| mounted := true; blogs := [a_blog; other_blog];
               episodes := []; selectedBlog := Some a_blog;
               showGenerator := true; isLoading := false;
               loads_in_flight := 0; blog_deletes := [];
               episode_deletes := [] |})).

Lemma blog_deletion_settles_witness :
  exists s',
    step deleting_selected (BlogDeleteSettled 0 true) = Some (s', [])
    /\ selectedBlog deleting_selected = Some other_blog
    /\ selectedBlog s' = None.
Proof.
  destruct (step deleting_selected (BlogDeleteSettled 0 true))
    as [[s' out]|] eqn:E; [|discriminate E].
  destruct (blog_deletion_settles _ _ _ _ _ E)
    as (id & closed & Hk & -> & _ & _ & Hok).
  injection Hk as <- <-.
  exists s'. split; [reflexivity|]. split; [reflexivity|].
  exact (proj1 (proj1 (proj2 (Hok eq_refl)) eq_refl)).
Defined.

End DashboardProps.
